(** * liquid-timer: the water simulation of [script.js]

    A shallow embedding of class [WaterSimulation] and of the frame loop,
    the drain loop and the time formatting of [TimerController], together
    with the properties its specification states about it.

    Numbers.  JavaScript numbers are modelled as exact rationals [Q]:
    no rounding, no [NaN], no [Infinity].  Numeric equality is [==] ([Qeq]);
    the JavaScript comparisons [<], [<=], [>], [>=] are the boolean tests
    [Qltb] and [Qle_bool].  Where a property concerns a branch the code
    takes, it is stated so that rounding does not decide it: a field equals the expression the source assigns
    to it, an inequality is one that rounding to nearest keeps, a branch is
    taken on the source's own test.  No property adds up time steps or
    withdrawals exactly.  The source divides by the scene width in
    [sampleSurfaceOffset] and [stepSurface]; at width 0 JavaScript's
    quotient is [NaN] or an infinity where [Q]'s is 0, so a property that
    reads the value of such a quotient assumes a width that is not zero.

    Host.  [Math.exp], [Math.sin], [Math.sqrt], [Math.PI] and the stream of
    values returned by [Math.random()] are supplied by a [Host]; the reading
    of [performance.now()] is an argument of [update].

    Arrays.  [h] and [v] are lists; an index is an integer [Z], and a read
    outside the array is [None] (JavaScript's [undefined]). *)

From Stdlib Require Import QArith Qminmax Qround Lqa Lia ZArith Bool.
From stdpp Require Import base list strings pretty.

Local Open Scope Q_scope.

(** ** Numbers *)

(** [a < b] on numbers. *)
Definition Qltb (a b : Q) : bool := negb (Qle_bool b a).

(** [a || b] on numbers: [a] unless it is falsy (zero). *)
Definition js_or (a b : Q) : Q := if Qeq_bool a 0 then b else a.

(** [Math.min(a || Infinity, b)]. *)
Definition min_or_Infinity (a b : Q) : Q := if Qeq_bool a 0 then b else Qmin a b.

(** ** Arrays *)

(** [a[i]], [None] when [i] is not an index of [a]. *)
Definition aget (a : list Q) (i : Z) : option Q :=
  if (i <? 0)%Z then None else a !! Z.to_nat i.

(** [a[i] ?? 0]; also used for reads that the length invariant keeps in
    range. *)
Definition aread (a : list Q) (i : Z) : Q := default 0 (aget a i).

(** [a[i] = e] for an index inside the array. *)
Definition aset (a : list Q) (i : Z) (e : Q) : list Q :=
  if (i <? 0)%Z then a else <[Z.to_nat i := e]> a.

(** [if (a[i] !== undefined) a[i] += e]. *)
Definition bump (i : Z) (e : Q) (a : list Q) : list Q :=
  match aget a i with
  | Some old => aset a i (old + e)
  | None => a
  end.

(** [for (let i = lo; i < lo + n; i++) body(i)]. *)
Fixpoint for_range {St : Type} (i : Z) (n : nat) (body : Z -> St -> St) (s : St) : St :=
  match n with
  | O => s
  | S n' => for_range (i + 1)%Z n' body (body i s)
  end.

(** [for (let i = lo; i < hi; i++) body(i)]. *)
Definition for_upto {St : Type} (lo hi : Z) (body : Z -> St -> St) (s : St) : St :=
  for_range lo (Z.to_nat (hi - lo)) body s.

(** ** State *)

Record Droplet := mkDroplet {
  x : Q; y : Q; px : Q; py : Q; vx : Q; vy : Q; r : Q; vol : Q
}.

Record Sim := mkSim {
  droplets : list Droplet;
  waterVolume : Q;
  targetFillHeight : Q;
  targetVolume : Q;
  volumePerSecond : Q;
  surfaceN : Z;
  h : list Q;
  v : list Q;
  dropSpawnAccumulator : Q;
  streamX : Q;
  isDraining : bool;
  whirlpoolActive : bool;
  whirlpoolCenter : Q * Q;
  whirlpoolStrength : Q;
  drainRate : Q;
  width : Q;
  height : Q
}.

(** Fields assigned once in the constructor and never again. *)
Definition dropsPerSecond : Q := 260.
Definition maxDroplets : nat := 1400.
Definition streamWidth : Q := 10.
Definition streamWobbleAmp : Q := 18.
Definition streamWobbleSpeed : Q := 0.65.
Definition gravity : Q := 5200.
Definition airDrag : Q := 0.995.
Definition waveSpeed : Q := 235.
Definition waveDamping : Q := 1.35.
Definition surfaceViscosity : Q := 0.02.

(** Field assignments [this.f = e]. *)
Definition set_droplets (e : list Droplet) (s : Sim) : Sim :=
  mkSim e (waterVolume s) (targetFillHeight s) (targetVolume s) (volumePerSecond s)
    (surfaceN s) (h s) (v s) (dropSpawnAccumulator s) (streamX s) (isDraining s)
    (whirlpoolActive s) (whirlpoolCenter s) (whirlpoolStrength s) (drainRate s)
    (width s) (height s).
Definition set_waterVolume (e : Q) (s : Sim) : Sim :=
  mkSim (droplets s) e (targetFillHeight s) (targetVolume s) (volumePerSecond s)
    (surfaceN s) (h s) (v s) (dropSpawnAccumulator s) (streamX s) (isDraining s)
    (whirlpoolActive s) (whirlpoolCenter s) (whirlpoolStrength s) (drainRate s)
    (width s) (height s).
Definition set_targetFillHeight (e : Q) (s : Sim) : Sim :=
  mkSim (droplets s) (waterVolume s) e (targetVolume s) (volumePerSecond s)
    (surfaceN s) (h s) (v s) (dropSpawnAccumulator s) (streamX s) (isDraining s)
    (whirlpoolActive s) (whirlpoolCenter s) (whirlpoolStrength s) (drainRate s)
    (width s) (height s).
Definition set_targetVolume (e : Q) (s : Sim) : Sim :=
  mkSim (droplets s) (waterVolume s) (targetFillHeight s) e (volumePerSecond s)
    (surfaceN s) (h s) (v s) (dropSpawnAccumulator s) (streamX s) (isDraining s)
    (whirlpoolActive s) (whirlpoolCenter s) (whirlpoolStrength s) (drainRate s)
    (width s) (height s).
Definition set_volumePerSecond (e : Q) (s : Sim) : Sim :=
  mkSim (droplets s) (waterVolume s) (targetFillHeight s) (targetVolume s) e
    (surfaceN s) (h s) (v s) (dropSpawnAccumulator s) (streamX s) (isDraining s)
    (whirlpoolActive s) (whirlpoolCenter s) (whirlpoolStrength s) (drainRate s)
    (width s) (height s).
Definition set_surfaceN (e : Z) (s : Sim) : Sim :=
  mkSim (droplets s) (waterVolume s) (targetFillHeight s) (targetVolume s) (volumePerSecond s)
    e (h s) (v s) (dropSpawnAccumulator s) (streamX s) (isDraining s)
    (whirlpoolActive s) (whirlpoolCenter s) (whirlpoolStrength s) (drainRate s)
    (width s) (height s).
Definition set_h (e : list Q) (s : Sim) : Sim :=
  mkSim (droplets s) (waterVolume s) (targetFillHeight s) (targetVolume s) (volumePerSecond s)
    (surfaceN s) e (v s) (dropSpawnAccumulator s) (streamX s) (isDraining s)
    (whirlpoolActive s) (whirlpoolCenter s) (whirlpoolStrength s) (drainRate s)
    (width s) (height s).
Definition set_v (e : list Q) (s : Sim) : Sim :=
  mkSim (droplets s) (waterVolume s) (targetFillHeight s) (targetVolume s) (volumePerSecond s)
    (surfaceN s) (h s) e (dropSpawnAccumulator s) (streamX s) (isDraining s)
    (whirlpoolActive s) (whirlpoolCenter s) (whirlpoolStrength s) (drainRate s)
    (width s) (height s).
Definition set_dropSpawnAccumulator (e : Q) (s : Sim) : Sim :=
  mkSim (droplets s) (waterVolume s) (targetFillHeight s) (targetVolume s) (volumePerSecond s)
    (surfaceN s) (h s) (v s) e (streamX s) (isDraining s)
    (whirlpoolActive s) (whirlpoolCenter s) (whirlpoolStrength s) (drainRate s)
    (width s) (height s).
Definition set_streamX (e : Q) (s : Sim) : Sim :=
  mkSim (droplets s) (waterVolume s) (targetFillHeight s) (targetVolume s) (volumePerSecond s)
    (surfaceN s) (h s) (v s) (dropSpawnAccumulator s) e (isDraining s)
    (whirlpoolActive s) (whirlpoolCenter s) (whirlpoolStrength s) (drainRate s)
    (width s) (height s).
Definition set_isDraining (e : bool) (s : Sim) : Sim :=
  mkSim (droplets s) (waterVolume s) (targetFillHeight s) (targetVolume s) (volumePerSecond s)
    (surfaceN s) (h s) (v s) (dropSpawnAccumulator s) (streamX s) e
    (whirlpoolActive s) (whirlpoolCenter s) (whirlpoolStrength s) (drainRate s)
    (width s) (height s).
Definition set_whirlpoolActive (e : bool) (s : Sim) : Sim :=
  mkSim (droplets s) (waterVolume s) (targetFillHeight s) (targetVolume s) (volumePerSecond s)
    (surfaceN s) (h s) (v s) (dropSpawnAccumulator s) (streamX s) (isDraining s)
    e (whirlpoolCenter s) (whirlpoolStrength s) (drainRate s)
    (width s) (height s).
Definition set_whirlpoolCenter (e : Q * Q) (s : Sim) : Sim :=
  mkSim (droplets s) (waterVolume s) (targetFillHeight s) (targetVolume s) (volumePerSecond s)
    (surfaceN s) (h s) (v s) (dropSpawnAccumulator s) (streamX s) (isDraining s)
    (whirlpoolActive s) e (whirlpoolStrength s) (drainRate s)
    (width s) (height s).
Definition set_whirlpoolStrength (e : Q) (s : Sim) : Sim :=
  mkSim (droplets s) (waterVolume s) (targetFillHeight s) (targetVolume s) (volumePerSecond s)
    (surfaceN s) (h s) (v s) (dropSpawnAccumulator s) (streamX s) (isDraining s)
    (whirlpoolActive s) (whirlpoolCenter s) e (drainRate s)
    (width s) (height s).
Definition set_drainRate (e : Q) (s : Sim) : Sim :=
  mkSim (droplets s) (waterVolume s) (targetFillHeight s) (targetVolume s) (volumePerSecond s)
    (surfaceN s) (h s) (v s) (dropSpawnAccumulator s) (streamX s) (isDraining s)
    (whirlpoolActive s) (whirlpoolCenter s) (whirlpoolStrength s) e
    (width s) (height s).
Definition set_width (e : Q) (s : Sim) : Sim :=
  mkSim (droplets s) (waterVolume s) (targetFillHeight s) (targetVolume s) (volumePerSecond s)
    (surfaceN s) (h s) (v s) (dropSpawnAccumulator s) (streamX s) (isDraining s)
    (whirlpoolActive s) (whirlpoolCenter s) (whirlpoolStrength s) (drainRate s)
    e (height s).
Definition set_height (e : Q) (s : Sim) : Sim :=
  mkSim (droplets s) (waterVolume s) (targetFillHeight s) (targetVolume s) (volumePerSecond s)
    (surfaceN s) (h s) (v s) (dropSpawnAccumulator s) (streamX s) (isDraining s)
    (whirlpoolActive s) (whirlpoolCenter s) (whirlpoolStrength s) (drainRate s)
    (width s) e.

(** ** Host functions *)

Record Host := mkHost {
  Math_exp : Q -> Q;
  Math_sin : Q -> Q;
  Math_sqrt : Q -> Q;
  Math_PI : Q;
  (** the n-th value [Math.random()] returns *)
  Math_random : nat -> Q
}.

(** ** The methods of [WaterSimulation] *)

Section WaterSimulation.

Variable M : Host.

(** [initSurfaceField()]. *)
Definition initSurfaceField (s : Sim) : Sim :=
  let n := Z.max 96 (Qfloor (width s / 3)) in
  set_v (replicate (Z.to_nat n) 0) (set_h (replicate (Z.to_nat n) 0) (set_surfaceN n s)).

(** One iteration of the resampling loop of [resize]. *)
Definition resample_at (oldH oldV : list Q) (oldN : Z) (i : Z) (s : Sim) : Sim :=
  let fx := (inject_Z i / inject_Z (surfaceN s - 1)) * inject_Z (oldN - 1) in
  let i0 := Qfloor fx in
  let i1 := Z.min (oldN - 1) (i0 + 1) in
  let t := fx - inject_Z i0 in
  let s1 := set_h (aset (h s) i (aread oldH i0 * (1 - t) + aread oldH i1 * t)) s in
  set_v (aset (v s1) i (aread oldV i0 * (1 - t) + aread oldV i1 * t)) s1.

(** The body of [this.droplets.forEach] in [resize]. *)
Definition rescale_droplet (sx w : Q) (d : Droplet) : Droplet :=
  let x1 := x d * sx in
  mkDroplet (Qmax (r d) (Qmin (w - r d) x1)) (y d) (px d) (py d) (vx d) (vy d) (r d) (vol d).

(** [resize()], with [window.innerWidth] and [window.innerHeight] as
    arguments.  The canvas and its context are not part of the model. *)
Definition resize (newWidth newHeight : Q) (s : Sim) : Sim :=
  let oldH := h s in
  let oldV := v s in
  let oldN := surfaceN s in
  let oldWidth := js_or (width s) newWidth in
  let s1 := set_height newHeight (set_width newWidth s) in
  let s2 := if Qltb 0 (targetFillHeight s1)
            then set_targetVolume (width s1 * targetFillHeight s1) s1 else s1 in
  let s3 := initSurfaceField s2 in
  let s4 := if (0 <? oldN)%Z && (Z.of_nat (length oldH) =? oldN)%Z
            then for_upto 0 (surfaceN s3) (resample_at oldH oldV oldN) s3 else s3 in
  let sx := width s4 / Qmax 1 oldWidth in
  let s5 := set_droplets (map (rescale_droplet sx (width s4)) (droplets s4)) s4 in
  set_streamX (width s5 * 0.55) s5.

(** The object the constructor builds before it calls [resize]
    ([width] and [height] are still undefined there, which [||] treats as
    it treats 0). *)
Definition fresh : Sim :=
  mkSim [] 0 0 0 0 0%Z [] [] 0 0 false false (0, 0) 0 0 0 0.

(** [new WaterSimulation(canvas)] in a window of the given inner size. *)
Definition new_WaterSimulation (innerWidth innerHeight : Q) : Sim :=
  resize innerWidth innerHeight fresh.

(** [setTargetFillHeight(height)]. *)
Definition setTargetFillHeight (e : Q) (s : Sim) : Sim :=
  let s1 := set_targetFillHeight e s in
  set_targetVolume (width s1 * e) s1.

(** [setEmission(volumePerSecond)]. *)
Definition setEmission (e : Q) (s : Sim) : Sim :=
  set_volumePerSecond (Qmax 0 e) s.

(** [a.fill(0)]. *)
Definition fill0 (a : list Q) : list Q := map (fun _ => 0) a.

(** [reset()]. *)
Definition reset (s : Sim) : Sim :=
  let s1 := set_droplets [] s in
  let s2 := set_waterVolume 0 s1 in
  let s3 := set_dropSpawnAccumulator 0 s2 in
  let s4 := set_h (fill0 (h s3)) s3 in
  let s5 := set_v (fill0 (v s4)) s4 in
  let s6 := set_isDraining false s5 in
  let s7 := set_whirlpoolActive false s6 in
  let s8 := set_whirlpoolStrength 0 s7 in
  set_drainRate 0 s8.

(** [getWaterHeight()]. *)
Definition getWaterHeight (s : Sim) : Q :=
  if Qle_bool (width s) 0 then 0
  else Qmin (js_or (targetFillHeight s) (height s)) (waterVolume s / width s).

(** [getBaseSurfaceY()]. *)
Definition getBaseSurfaceY (s : Sim) : Q := height s - getWaterHeight s.

(** [xToIndex(x)]. *)
Definition xToIndex (s : Sim) (e : Q) : Z :=
  let t := if Qle_bool (width s) 1 then 0 else e / width s in
  Z.max 0 (Z.min (surfaceN s - 1) (Qfloor (t * inject_Z (surfaceN s - 1)))).

(** [sampleSurfaceOffset(x)]. *)
Definition sampleSurfaceOffset (s : Sim) (e : Q) : Q :=
  if (surfaceN s <=? 1)%Z then 0
  else
    let fx := (e / width s) * inject_Z (surfaceN s - 1) in
    let i0 := Qfloor fx in
    let i1 := Z.min (surfaceN s - 1) (i0 + 1) in
    let t := fx - inject_Z i0 in
    aread (h s) i0 * (1 - t) + aread (h s) i1 * t.

(** [getSurfaceY(x)]. *)
Definition getSurfaceY (s : Sim) (e : Q) : Q :=
  getBaseSurfaceY s + sampleSurfaceOffset s e.

(** [addRippleImpulse(x, strength)]. *)
Definition addRippleImpulse (e strength : Q) (s : Sim) : Sim :=
  let idx := xToIndex s e in
  let a0 := bump idx strength (v s) in
  let a1 := bump (idx - 1) (strength * 0.75) a0 in
  let a2 := bump (idx + 1) (strength * 0.75) a1 in
  let a3 := bump (idx - 2) (strength * 0.45) a2 in
  let a4 := bump (idx + 2) (strength * 0.45) a3 in
  let a5 := bump (idx - 3) (strength * 0.20) a4 in
  let a6 := bump (idx + 3) (strength * 0.20) a5 in
  set_v a6 s.

(** [spawnDroplet()]; [k] counts the calls of [Math.random()] made so
    far. *)
Definition spawnDroplet (w : Sim * nat) : Sim * nat :=
  let '(s, k) := w in
  if (maxDroplets <=? length (droplets s))%nat then (s, k)
  else
    let meanDropVolume := volumePerSecond s / Qmax 1 dropsPerSecond in
    let vol0 := Qmax 0.0001 (meanDropVolume * (0.65 + Math_random M k * 0.7)) in
    let r0 := Qmax 1.5 (Qmin 5.5 (Math_sqrt M (vol0 / Math_PI M) * 9.5)) in
    let jitter := (Math_random M (k + 1) - 0.5) * streamWidth * 0.9 in
    let x0 := Qmax 0 (Qmin (width s) (streamX s + jitter)) in
    let y0 := -12 - Math_random M (k + 2) * 40 in
    let vx0 := (Math_random M (k + 3) - 0.5) * 20 in
    let vy0 := 0 in
    (set_droplets (droplets s ++ [mkDroplet x0 y0 x0 y0 vx0 vy0 r0 vol0]) s, (k + 4)%nat).

(** The first loop of [stepSurface]: the wave equation.  At width 0 the
    spacing [dx] is 0 and the source's quotient is [NaN] or an infinity,
    where this one is 0. *)
Definition wave_at (dx c2 dt : Q) (i : Z) (s : Sim) : Sim :=
  let lap := (aread (h s) (i - 1) + aread (h s) (i + 1) - 2 * aread (h s) i) / (dx * dx) in
  set_v (aset (v s) i (aread (v s) i + c2 * lap * dt)) s.

(** The second loop of [stepSurface]: damping and integration. *)
Definition damp_at (damp dt : Q) (i : Z) (s : Sim) : Sim :=
  let s1 := set_v (aset (v s) i (aread (v s) i * damp)) s in
  set_h (aset (h s1) i (aread (h s1) i + aread (v s1) i * dt)) s1.

(** The third loop of [stepSurface]: smoothing of [this.h] into [tmp]. *)
Definition blur_at (hs : list Q) (a : Q) (i : Z) (tmp : list Q) : list Q :=
  aset tmp i (aread hs i * (1 - a) + (aread hs (i - 1) + aread hs (i + 1)) * (a * 0.5)).

(** [stepSurface(dt)].  [new Array(n)] is a list of [n] entries, all of
    which the code assigns before [tmp] is read. *)
Definition stepSurface (dt : Q) (s : Sim) : Sim :=
  if (surfaceN s <=? 2)%Z then s
  else
    let dx := width s / inject_Z (surfaceN s - 1) in
    let c2 := waveSpeed * waveSpeed in
    let s1 := for_upto 1 (surfaceN s - 1) (wave_at dx c2 dt) s in
    let damp := Math_exp M (- waveDamping * dt) in
    let s2 := for_upto 0 (surfaceN s1) (damp_at damp dt) s1 in
    if Qltb 0 surfaceViscosity then
      let tmp := replicate (Z.to_nat (surfaceN s2)) 0 in
      let tmp1 := aset tmp 0 (aread (h s2) 0) in
      let tmp2 := aset tmp1 (surfaceN s2 - 1) (aread (h s2) (surfaceN s2 - 1)) in
      let a := surfaceViscosity in
      let tmp3 := for_upto 1 (surfaceN s2 - 1) (blur_at (h s2) a) tmp2 in
      set_h tmp3 s2
    else s2.

(** The emission loop of [update]:
    [while (acc >= 1) { spawnDroplet(); acc -= 1; }], run for at most
    [fuel] iterations. *)
Fixpoint emit_loop (fuel : nat) (w : Sim * nat) : Sim * nat :=
  match fuel with
  | O => w
  | S fuel' =>
      if Qle_bool 1 (dropSpawnAccumulator (fst w)) then
        let w1 := spawnDroplet w in
        emit_loop fuel'
          (set_dropSpawnAccumulator (dropSpawnAccumulator (fst w1) - 1) (fst w1), snd w1)
      else w
  end.

(** The number of iterations the emission loop makes from accumulator
    value [acc]. *)
Definition emit_fuel (acc : Q) : nat := Z.to_nat (Qfloor acc).

(** The body of the droplet loop of [update] for droplet [d]: the state
    after it, and the droplet if it stays in the list. *)
Definition step_droplet (dt : Q) (d : Droplet) (s : Sim) : Sim * option Droplet :=
  let px1 := x d in
  let py1 := y d in
  let vy1 := vy d + gravity * dt in
  let vx2 := vx d * airDrag in
  let vy2 := vy1 * airDrag in
  let x1 := x d + vx2 * dt in
  let y1 := y d + vy2 * dt in
  let '(x2, vx3) :=
    if Qltb x1 (r d) then (r d, vx2 * -0.35)
    else if Qltb (width s - r d) x1 then (width s - r d, vx2 * -0.35)
    else (x1, vx2) in
  let d' := mkDroplet x2 y1 px1 py1 vx3 vy2 (r d) (vol d) in
  let surfaceY := getSurfaceY s x2 in
  if Qle_bool surfaceY (y1 + r d) then
    let s1 := set_waterVolume (min_or_Infinity (targetVolume s) (waterVolume s + vol d)) s in
    let impulse := Qmin 6500 (vy2 * 1.25 + vol d * 220) in
    (addRippleImpulse x2 impulse s1, None)
  else if Qltb (height s + 120) y1 then (s, None)
  else (s, Some d').

(** The droplet loop of [update]: it runs from the last droplet to the
    first and splices out the droplets that merged or fell through, so the
    tail of the list is processed before its head.  The result is the
    state (whose [droplets] field is not yet updated) and the droplets that
    stay. *)
Fixpoint droplet_loop (dt : Q) (ds : list Droplet) (s : Sim) : Sim * list Droplet :=
  match ds with
  | [] => (s, [])
  | d :: rest =>
      let '(s1, rest') := droplet_loop dt rest s in
      let '(s2, od) := step_droplet dt d s1 in
      (s2, match od with Some d' => d' :: rest' | None => rest' end)
  end.

(** One iteration of the whirlpool sink loop of [update]. *)
Definition sink_at (idx : Z) (sink dt : Q) (k : Z) (s : Sim) : Sim :=
  let j := (idx + k)%Z in
  if (j <? 0)%Z || (surfaceN s <=? j)%Z then s
  else
    let sigma := 9 in
    let w := Math_exp M (- (inject_Z k * inject_Z k) / (2 * sigma * sigma)) in
    set_v (aset (v s) j (aread (v s) j + sink * w * dt)) s.

(** The whirlpool sink of [update]. *)
Definition whirlpool_sink (dt : Q) (s : Sim) : Sim :=
  let cx := fst (whirlpoolCenter s) in
  let idx := xToIndex s cx in
  let sink := -1600 * whirlpoolStrength s in
  for_upto (-28) 29 (sink_at idx sink dt) s.

(** The blocks of [update], in the order of the source. *)

(** "Update stream X with a gentle wobble"; [now] is what
    [performance.now()] returns. *)
Definition update_stream (now : Q) (s : Sim) : Sim :=
  let t := now * 0.001 in
  let base := width s * 0.56 in
  let wobble := Math_sin M (t * (Math_PI M * 2) * streamWobbleSpeed) * streamWobbleAmp in
  let wobble2 :=
    Math_sin M (t * (Math_PI M * 2) * (streamWobbleSpeed * 1.9) + 1.3)
    * (streamWobbleAmp * 0.35) in
  set_streamX (Qmax streamWidth (Qmin (width s - streamWidth) (base + wobble + wobble2))) s.

(** "Emit droplets at a fixed count rate". *)
Definition update_emit (dt : Q) (w : Sim * nat) : Sim * nat :=
  let s := fst w in
  if negb (isDraining s) && negb (whirlpoolActive s) && Qltb 0 (volumePerSecond s) then
    let s' := set_dropSpawnAccumulator (dropSpawnAccumulator s + dropsPerSecond * dt) s in
    emit_loop (emit_fuel (dropSpawnAccumulator s')) (s', snd w)
  else w.

(** "Drain volume during completion". *)
Definition update_drain (dt : Q) (s : Sim) : Sim :=
  if isDraining s && Qltb 0 (drainRate s) then
    let s' := set_waterVolume (Qmax 0 (waterVolume s - drainRate s * dt)) s in
    set_whirlpoolStrength (Qmin 3.5 (whirlpoolStrength s' + dt * 0.9)) s'
  else s.

(** "Update droplets (free-fall) and merge on impact". *)
Definition update_droplets (dt : Q) (s : Sim) : Sim :=
  let '(s', kept) := droplet_loop dt (droplets s) s in
  set_droplets kept s'.

(** "Apply whirlpool sink to the surface during drain". *)
Definition update_whirlpool (dt : Q) (s : Sim) : Sim :=
  if whirlpoolActive s then whirlpool_sink dt s else s.

(** "Keep base surface stable". *)
Definition update_ceiling (baseSurfaceY : Q) (s : Sim) : Sim :=
  if Qltb baseSurfaceY 0 then set_waterVolume (width s * height s) s else s.

(** "Auto-stop drain once empty". *)
Definition update_autostop (s : Sim) : Sim :=
  if isDraining s && Qle_bool (waterVolume s) 0 && (length (droplets s) =? 0)%nat then
    set_drainRate 0
      (set_whirlpoolStrength 0 (set_isDraining false (set_whirlpoolActive false s)))
  else s.

(** The body of [update] below the clamp, for the clamped time step
    [dt]; the second component of [w] counts the calls of
    [Math.random()]. *)
Definition update_with_dt (now dt : Q) (w : Sim * nat) : Sim * nat :=
  let s1 := update_stream now (fst w) in
  let w2 := update_emit dt (s1, snd w) in
  let s3 := update_drain dt (fst w2) in
  let baseSurfaceY := getBaseSurfaceY s3 in
  let s5 := update_droplets dt s3 in
  let s6 := update_whirlpool dt s5 in
  let s7 := update_ceiling baseSurfaceY s6 in
  let s8 := stepSurface dt s7 in
  (update_autostop s8, snd w2).

(** [update(deltaTime)]; [now] is what [performance.now()] returns. *)
Definition update (now deltaTime : Q) (w : Sim * nat) : Sim * nat :=
  let dt := Qmax 0 (Qmin 0.05 deltaTime) in
  update_with_dt now dt w.

(** [startDraining()]. *)
Definition startDraining (s : Sim) : Sim :=
  let s1 := set_isDraining true s in
  let s2 := set_whirlpoolActive true s1 in
  let s3 := set_whirlpoolCenter (width s2 / 2, height s2 - 50) s2 in
  let s4 := set_whirlpoolStrength 0.6 s3 in
  set_drainRate (waterVolume s4 / 2.2) s4.

(** ** The drain loop of [TimerController.complete] *)

(** [drainAnimation]: one [update] per animation frame for as long as the
    simulation is draining; a frame is the pair of the [dt] it passes and of
    the clock reading [update] makes. *)
Fixpoint drainAnimation (frames : list (Q * Q)) (w : Sim * nat) : Sim * nat :=
  match frames with
  | [] => w
  | (dt, now) :: rest =>
      if isDraining (fst w) || whirlpoolActive (fst w)
      then drainAnimation rest (update now dt w)
      else w
  end.

(** [complete()], restricted to the simulation: [startDraining()], then
    the drain loop. *)
Definition complete (frames : list (Q * Q)) (w : Sim * nat) : Sim * nat :=
  drainAnimation frames (startDraining (fst w), snd w).

(** A sequence of [update] calls. *)
Fixpoint run (frames : list (Q * Q)) (w : Sim * nat) : Sim * nat :=
  match frames with
  | [] => w
  | (dt, now) :: rest => run rest (update now dt w)
  end.

(** The states the methods produce from a newly constructed simulation. *)
Inductive reachable : Sim -> Prop :=
| reach_new (iw ih : Q) : reachable (new_WaterSimulation iw ih)
| reach_resize (iw ih : Q) (s : Sim) : reachable s -> reachable (resize iw ih s)
| reach_setTargetFillHeight (e : Q) (s : Sim) :
    reachable s -> reachable (setTargetFillHeight e s)
| reach_setEmission (e : Q) (s : Sim) : reachable s -> reachable (setEmission e s)
| reach_reset (s : Sim) : reachable s -> reachable (reset s)
| reach_update (now dt : Q) (k : nat) (s : Sim) :
    reachable s -> reachable (fst (update now dt (s, k)))
| reach_startDraining (s : Sim) : reachable s -> reachable (startDraining s).

End WaterSimulation.

(** ** The timer controller

    The parts of [TimerController] that compute: the three input fields
    are taken as the integers [parseInt] has read from them. *)

(** [calculateTotalSeconds()]. *)
Definition calculateTotalSeconds (hours minutes seconds : Z) : Z :=
  (hours * 3600 + minutes * 60 + seconds)%Z.

(** [t.padStart(2, '0')]: zeros in front until the length is 2. *)
Definition padStart2 (t : string) : string :=
  match String.length t with
  | O => String.append "00" t
  | S O => String.append "0" t
  | _ => t
  end.

(** The three fields [formatTime] prints, for a whole number of seconds:
    [Math.floor(seconds / 3600)], [Math.floor((seconds % 3600) / 60)] and
    [seconds % 60], where [%] takes the sign of the dividend. *)
Definition formatTime_fields (seconds : Z) : Z * Z * Z :=
  ((seconds / 3600)%Z, (Z.rem seconds 3600 / 60)%Z, Z.rem seconds 60).

(** [formatTime(seconds)]; [String(n)] of an integer is its decimal
    numeral. *)
Definition formatTime (seconds : Z) : string :=
  let '(hh, mm, ss) := formatTime_fields seconds in
  String.append (padStart2 (pretty hh))
    (String.append ":" (String.append (padStart2 (pretty mm))
       (String.append ":" (padStart2 (pretty ss))))).

(** What [start()] does to the simulation, with [totalSeconds] as
    [calculateTotalSeconds()] returned it and [window.innerHeight] as an
    argument: nothing when the duration is not positive (the alert), else
    target, reset and emission rate. *)
Definition start (totalSeconds : Z) (innerHeight : Q) (s : Sim) : Sim :=
  if (totalSeconds <=? 0)%Z then s
  else
    let s1 := setTargetFillHeight innerHeight s in
    let s2 := reset s1 in
    setEmission (targetVolume s2 / inject_Z totalSeconds) s2.

(** ** The frame loop of [TimerController]

    The fields of the controller that its frame loop reads and writes.
    [waterSim] is the simulation together with the number of
    [Math.random()] draws made so far.  The DOM, the wake lock and the
    sound are left out. *)
Module TimerController.

Record Timer : Type := mkTimer {
  isRunning : bool;
  isPaused : bool;
  remainingSeconds : Q;
  lastTime : Q;
  timeText : string;
  waterSim : Sim * nat
}.

Definition set_isRunning (e : bool) (t : Timer) : Timer :=
  mkTimer e (isPaused t) (remainingSeconds t) (lastTime t) (timeText t) (waterSim t).
Definition set_isPaused (e : bool) (t : Timer) : Timer :=
  mkTimer (isRunning t) e (remainingSeconds t) (lastTime t) (timeText t) (waterSim t).
Definition set_remainingSeconds (e : Q) (t : Timer) : Timer :=
  mkTimer (isRunning t) (isPaused t) e (lastTime t) (timeText t) (waterSim t).
Definition set_lastTime (e : Q) (t : Timer) : Timer :=
  mkTimer (isRunning t) (isPaused t) (remainingSeconds t) e (timeText t) (waterSim t).
Definition set_timeText (e : string) (t : Timer) : Timer :=
  mkTimer (isRunning t) (isPaused t) (remainingSeconds t) (lastTime t) e (waterSim t).
Definition set_waterSim (e : Sim * nat) (t : Timer) : Timer :=
  mkTimer (isRunning t) (isPaused t) (remainingSeconds t) (lastTime t) (timeText t) e.

(** [pause()]: the toggle. *)
Definition pause (t : Timer) : Timer := set_isPaused (negb (isPaused t)) t.

(** [complete()]; [drain] are the frames of the drain loop it starts. *)
Definition complete (M : Host) (drain : list (Q * Q)) (t : Timer) : Timer :=
  let t1 := set_isRunning false t in
  let t2 := set_remainingSeconds 0 t1 in
  let t3 := set_timeText "00:00:00" t2 in
  set_waterSim (complete M drain (waterSim t3)) t3.

(** [animate()], one frame: [currentTime] is the clock reading the frame
    makes, [now] the one [update] makes. *)
Definition animate (M : Host) (currentTime now : Q) (drain : list (Q * Q)) (t : Timer)
  : Timer :=
  if negb (isRunning t) then t
  else
    let deltaTime := (currentTime - lastTime t) / 1000 in
    let t1 := set_lastTime currentTime t in
    if negb (isPaused t1) then
      let t2 := set_remainingSeconds (remainingSeconds t1 - deltaTime) t1 in
      if Qle_bool (remainingSeconds t2) 0 then complete M drain t2
      else
        let t3 := set_waterSim (update M now deltaTime (waterSim t2)) t2 in
        set_timeText (formatTime (Qceiling (remainingSeconds t3))) t3
    else t1.

(** The frames [animate] schedules for itself: one per pair of clock
    readings, for as long as the timer is running. *)
Fixpoint animation (M : Host) (frames : list (Q * Q)) (drain : list (Q * Q)) (t : Timer)
  : Timer :=
  match frames with
  | [] => t
  | (currentTime, now) :: rest =>
      if isRunning t then animation M rest drain (animate M currentTime now drain t)
      else t
  end.

End TimerController.

(** ** A host for running the model

    Rational stand-ins for the host functions: truncated series for
    [Math.exp] and [Math.sin], one Newton step for [Math.sqrt], the
    midpoint [0.5] for every [Math.random()]. *)
Definition demoHost : Host :=
  mkHost (fun a => 1 + a + a * a / 2)
         (fun a => a - a * a * a / 6)
         (fun a => (a + 1) / 2)
         (355 # 113)
         (fun _ => 0.5).

(** * Predicates, specification-side functions and sample states *)

(** The clamp of [update]. *)
Definition clamp_dt (deltaTime : Q) : Q := Qmax 0 (Qmin 0.05 deltaTime).

(** Two states with the same values in the fields [update] never
    assigns. *)
Definition same_static (s s' : Sim) : Prop :=
  width s' = width s /\ height s' = height s /\
  targetFillHeight s' = targetFillHeight s /\ targetVolume s' = targetVolume s /\
  volumePerSecond s' = volumePerSecond s /\ surfaceN s' = surfaceN s /\
  whirlpoolCenter s' = whirlpoolCenter s.

(** The height as the specification words it:
    [min(targetHeight, volume / width)]. *)
Definition spec_height (s : Sim) : Q :=
  Qmin (targetFillHeight s) (waterVolume s / width s).

(** A simulation in a 10 x 100 window for which no target height was ever
    set and whose reservoir holds 50 units. *)
Definition untargeted : Sim := set_waterVolume 50 (new_WaterSimulation 10 100).

(** Two states that differ in the heightfield arrays at most. *)
Definition same_but_surface (s s' : Sim) : Prop :=
  set_v [] (set_h [] s') = set_v [] (set_h [] s).

(** The droplet count is within [maxDroplets]. *)
Definition under_cap (s : Sim) : Prop := (length (droplets s) <= maxDroplets)%nat.

(** [h.length == v.length == surfaceN]. *)
Definition surface_ok (s : Sim) : Prop :=
  Z.of_nat (length (h s)) = surfaceN s /\ Z.of_nat (length (v s)) = surfaceN s.

(** The fields the reservoir and the drain are read from. *)
Definition tank (s : Sim) : Q * Q * Q * Q * Q * (bool * bool * Q) :=
  (waterVolume s, targetFillHeight s, targetVolume s, width s, height s,
   (isDraining s, whirlpoolActive s, drainRate s)).

(** What [spawnDroplet] gives every droplet: a volume that is not
    negative and a radius in [1.5, 5.5]. *)
Definition droplet_ok (d : Droplet) : Prop := 0 <= vol d /\ 1.5 <= r d <= 5.5.

(** Every active droplet has these bounds. *)
Definition vols_ok (s : Sim) : Prop := Forall droplet_ok (droplets s).

(** A running timer, half way: a 500 x 300 window, target height 300
    (target volume 150000), 75000 units in the reservoir. *)
Definition halfFull : Sim :=
  set_waterVolume 75000 (setTargetFillHeight 300 (new_WaterSimulation 500 300)).

(** The window of [halfFull] after the user has shrunk it to a height of
    100. *)
Definition shrunk : Sim := resize 500 100 halfFull.

(** A timer started in a window one pixel wide. *)
Definition narrow : Sim := setEmission 1000 (new_WaterSimulation 1 100).



(** A host that differs from [demoHost] in the values [Math.random()]
    returns only. *)
Definition otherDraws : Host :=
  mkHost (Math_exp demoHost) (Math_sin demoHost) (Math_sqrt demoHost) (Math_PI demoHost)
         (fun _ => 0.25).

(** A timer that fills a 500 x 300 window. *)
Definition running : Sim := setEmission 2500 (new_WaterSimulation 500 300).

(** Two states that differ in the stream position [streamX] at most. *)
Definition same_but_streamX (s s' : Sim) : Prop := set_streamX 0 s = set_streamX 0 s'.

(** No droplet is spawned by [update(deltaTime)]: the guard of the
    emission block is false, or the accumulator stays below one
    droplet. *)
Definition no_spawn (deltaTime : Q) (s : Sim) : Prop :=
  isDraining s = true \/ whirlpoolActive s = true \/ volumePerSecond s <= 0 \/
  dropSpawnAccumulator s + dropsPerSecond * clamp_dt deltaTime < 1.

(** Two hosts with the same [Math.exp]; their [Math.random()],
    [Math.sin], [Math.sqrt] and [Math.PI] may differ. *)
Definition same_exp (M M' : Host) : Prop := forall a, Math_exp M a = Math_exp M' a.


(** [lo <= j < lo + n]. *)
Definition in_span (lo : Z) (n : nat) (j : Z) : bool :=
  (lo <=? j)%Z && (j <? lo + Z.of_nat n)%Z.

(** The discrete Laplacian of the source: central differences over
    spacing [dx]. *)
Definition laplacian (hs : list Q) (dx : Q) (j : Z) : Q :=
  (aread hs (j - 1) + aread hs (j + 1) - 2 * aread hs j) / (dx * dx).

(** Sample [j] is an interior sample of a field of [n] samples. *)
Definition interior (n j : Z) : bool := (1 <=? j)%Z && (j <? n - 1)%Z.

(** The step as the specification words it.  The new velocity: the old
    one, plus the Laplacian of [h] times
    [c^2 dt] at interior samples, all times [exp(-waveDamping dt)]. *)
Definition spec_velocity (M : Host) (s : Sim) (dt : Q) (j : Z) : Q :=
  (if interior (surfaceN s) j
   then aread (v s) j
        + waveSpeed * waveSpeed
          * laplacian (h s) (width s / inject_Z (surfaceN s - 1)) j * dt
   else aread (v s) j)
  * Math_exp M (- waveDamping * dt).

(** The height after integration: [h[j] += v[j] dt]. *)
Definition spec_integrated (M : Host) (s : Sim) (dt : Q) (j : Z) : Q :=
  aread (h s) j + spec_velocity M s dt j * dt.

(** The height after the single-pass blur: the weighted average with the
    two neighbours at interior samples, the integrated height at the two
    boundary samples. *)
Definition spec_blurred (M : Host) (s : Sim) (dt : Q) (j : Z) : Q :=
  if interior (surfaceN s) j
  then spec_integrated M s dt j * (1 - surfaceViscosity)
       + (spec_integrated M s dt (j - 1) + spec_integrated M s dt (j + 1))
         * (surfaceViscosity * 0.5)
  else spec_integrated M s dt j.

(** What the methods keep true of the drain, the spawn accumulator,
    the target and the sample count: the two drain flags are equal; with
    the drain off the whirlpool strength and the drain rate are 0; the
    strength lies in [0, 3.5]; the accumulator lies in [0, 1); a
    non-negative target height has the target volume [width * height]
    of it; the sample count is [max(96, floor(width / 3))]. *)
Definition sim_inv (s : Sim) : Prop :=
  isDraining s = whirlpoolActive s /\
  (isDraining s = false -> whirlpoolStrength s = 0 /\ drainRate s = 0) /\
  0 <= whirlpoolStrength s <= 3.5 /\
  0 <= dropSpawnAccumulator s < 1 /\
  (0 <= targetFillHeight s -> targetVolume s == width s * targetFillHeight s) /\
  surfaceN s = Z.max 96 (Qfloor (width s / 3)).

(** What [addRippleImpulse] leaves in a velocity that was [old], at a
    sample [d] places from the index of the impulse: the full strength at
    the index, 0.75, 0.45 and 0.20 of it one, two and three samples away,
    nothing farther out. *)
Definition ripple_at (strength : Q) (d : Z) (old : Q) : Q :=
  match d with
  | 0%Z => old + strength
  | 1%Z | (-1)%Z => old + strength * 0.75
  | 2%Z | (-2)%Z => old + strength * 0.45
  | 3%Z | (-3)%Z => old + strength * 0.20
  | _ => old
  end.

(** What the whirlpool sink leaves in a velocity that was [old], at a
    sample [d] places from the index of the whirlpool center: the sink
    times the Gaussian weight of [d] (sigma 9) times [dt] within 28
    samples, nothing farther out. *)
Definition sink_term (M : Host) (sink dt : Q) (d : Z) (old : Q) : Q :=
  if (-28 <=? d)%Z && (d <? 29)%Z
  then old + sink * Math_exp M (- (inject_Z d * inject_Z d) / (2 * 9 * 9)) * dt
  else old.

(** The x-position [render] draws sample [i] at:
    [(i / (surfaceN - 1)) * width]. *)
Definition sample_x (s : Sim) (i : Z) : Q :=
  (inject_Z i / inject_Z (surfaceN s - 1)) * width s.

(** The [update] calls a run of unpaused [animate] frames makes: for the
    frame with clock reading [c] after the reading [last], the time step
    [(c - last) / 1000] and the reading [update] makes. *)
Fixpoint deltas (last : Q) (frames : list (Q * Q)) : list (Q * Q) :=
  match frames with
  | [] => []
  | (c, n) :: rest => ((c - last) / 1000, n) :: deltas c rest
  end.

(** The clock readings of the frames do not go back, from [last] on. *)
Fixpoint clock_ordered (last : Q) (frames : list (Q * Q)) : Prop :=
  match frames with
  | [] => True
  | (c, _) :: rest => last <= c /\ clock_ordered c rest
  end.

(** A five-minute timer that has just been started in a 500 x 300
    window, at clock reading 0. *)
Definition ticking : TimerController.Timer :=
  TimerController.mkTimer true false 300 0 "00:05:00"
    (start 300 300 (new_WaterSimulation 500 300), 0%nat).

(** * Properties *)

(** The model run on the first frame (16 ms) of a timer that fills a
    500 x 300 window at 2500 units per second: 166 samples,
    [260 * 0.016 = 4.16] droplets due, four spawned with sixteen random
    draws, 0.16 left in the accumulator. *)
Example first_frame :
  let w := update demoHost 0 0.016
             (setEmission 2500 (reset (setTargetFillHeight 300 (new_WaterSimulation 500 300))),
              0%nat) in
  surfaceN (fst w) = 166%Z /\ length (droplets (fst w)) = 4%nat /\ snd w = 16%nat /\
  dropSpawnAccumulator (fst w) == 0.16.
Proof. vm_compute. repeat split. Qed.

(** ** Comparisons and clamps *)

Lemma Qltb_true (a b : Q) : Qltb a b = true <-> a < b.
Proof.
  unfold Qltb. rewrite negb_true_iff.
  destruct (Qle_bool b a) eqn:E.
  - apply Qle_bool_iff in E. split; [discriminate | intros; lra].
  - split; [intros _ | reflexivity].
    destruct (Qlt_le_dec a b) as [Hlt | Hle]; [exact Hlt |].
    apply Qle_bool_iff in Hle. congruence.
Qed.

Lemma Qltb_false (a b : Q) : Qltb a b = false <-> b <= a.
Proof.
  unfold Qltb. rewrite negb_false_iff. apply Qle_bool_iff.
Qed.

Lemma Qle_bool_false (a b : Q) : Qle_bool a b = false <-> b < a.
Proof.
  rewrite <- Qltb_true. unfold Qltb. now rewrite negb_true_iff.
Qed.

Lemma Qmax_lub_l (a b : Q) : a <= Qmax a b.
Proof. apply Q.le_max_l. Qed.

Lemma Qmin_glb_l (a b : Q) : Qmin a b <= a.
Proof. apply Q.le_min_l. Qed.

Lemma Qmin_glb_r (a b : Q) : Qmin a b <= b.
Proof. apply Q.le_min_r. Qed.

(** [Qmin] and [Qmax] return one of their arguments. *)
Lemma Qmin_cases (a b : Q) : (Qmin a b = a /\ a <= b) \/ (Qmin a b = b /\ b < a).
Proof.
  unfold Qmin, GenericMinMax.gmin.
  destruct (a ?= b) eqn:E.
  - apply Qeq_alt in E. left. split; [reflexivity | lra].
  - apply Qlt_alt in E. left. split; [reflexivity | lra].
  - apply Qgt_alt in E. right. split; [reflexivity | lra].
Qed.

Lemma Qmax_cases (a b : Q) : (Qmax a b = a /\ b <= a) \/ (Qmax a b = b /\ a < b).
Proof.
  unfold Qmax, GenericMinMax.gmax.
  destruct (a ?= b) eqn:E.
  - apply Qeq_alt in E. left. split; [reflexivity | lra].
  - apply Qlt_alt in E. right. split; [reflexivity | lra].
  - apply Qgt_alt in E. left. split; [reflexivity | lra].
Qed.

Lemma clamp_dt_range (deltaTime : Q) : 0 <= clamp_dt deltaTime <= 0.05.
Proof.
  unfold clamp_dt. split; [apply Qmax_lub_l |].
  apply Q.max_lub; [lra | apply Qmin_glb_l].
Qed.

(** Clamping a time step that the source's other spelling of the clamp
    has already clamped changes nothing, as values and as terms. *)
Lemma clamp_dt_absorbs (deltaTime : Q) :
  clamp_dt (Qmin 0.05 (Qmax 0 deltaTime)) = clamp_dt deltaTime.
Proof.
  unfold clamp_dt.
  destruct (Qmax_cases 0 deltaTime) as [[-> H0] | [-> H0]].
  - destruct (Qmin_cases 0.05 0) as [[E H1] | [-> H1]]; [lra |].
    destruct (Qmin_cases 0.05 0) as [[E H2] | [-> H2]]; [lra |].
    destruct (Qmin_cases 0.05 deltaTime) as [[E H3] | [-> H3]]; [lra |].
    destruct (Qmax_cases 0 0) as [[-> _] | [-> _]];
      destruct (Qmax_cases 0 deltaTime) as [[-> H4] | [E H4]]; try reflexivity; lra.
  - destruct (Qmin_cases 0.05 deltaTime) as [[-> H1] | [-> H1]].
    + destruct (Qmin_cases 0.05 0.05) as [[-> _] | [-> _]]; reflexivity.
    + destruct (Qmin_cases 0.05 deltaTime) as [[E H2] | [-> H2]]; [lra | reflexivity].
Qed.

Ltac destruct_ifs :=
  repeat match goal with
         | |- context [if ?c then _ else _] => destruct c
         end.

(** Call-by-value evaluation of field assignments and field reads. *)
Ltac sim_cbv :=
  cbv beta iota zeta delta
    [set_droplets set_waterVolume set_targetFillHeight set_targetVolume
     set_volumePerSecond set_surfaceN set_h set_v set_dropSpawnAccumulator set_streamX
     set_isDraining set_whirlpoolActive set_whirlpoolCenter set_whirlpoolStrength
     set_drainRate set_width set_height
     droplets waterVolume targetFillHeight targetVolume volumePerSecond surfaceN h v
     dropSpawnAccumulator streamX isDraining whirlpoolActive whirlpoolCenter
     whirlpoolStrength drainRate width height].

(** ** Loop invariants *)

Lemma for_range_ind {St : Type} (P : St -> Prop) (body : Z -> St -> St) :
  (forall i s, P s -> P (body i s)) ->
  forall n i s, P s -> P (for_range i n body s).
Proof.
  intros Hbody n. induction n as [| n IH]; intros i s Hs; simpl; auto.
Qed.

Lemma for_upto_ind {St : Type} (P : St -> Prop) (body : Z -> St -> St) (lo hi : Z) (s : St) :
  (forall i s', P s' -> P (body i s')) -> P s -> P (for_upto lo hi body s).
Proof. intros Hbody Hs. unfold for_upto. now apply for_range_ind. Qed.

Lemma emit_loop_ind (M : Host) (P : Sim -> Prop) :
  (forall w, P (fst w) -> P (fst (spawnDroplet M w))) ->
  (forall e s, P s -> P (set_dropSpawnAccumulator e s)) ->
  forall fuel w, P (fst w) -> P (fst (emit_loop M fuel w)).
Proof.
  intros Hspawn Hacc fuel. induction fuel as [| fuel IH]; intros w Hw; simpl; auto.
  destruct (Qle_bool 1 (dropSpawnAccumulator (fst w))); auto.
  apply IH. simpl. auto.
Qed.

Lemma droplet_loop_ind (P : Sim -> Prop) (dt : Q) :
  (forall d s, P s -> P (fst (step_droplet dt d s))) ->
  forall ds s, P s -> P (fst (droplet_loop dt ds s)).
Proof.
  intros Hstep ds. induction ds as [| d rest IH]; intros s Hs; simpl; auto.
  specialize (IH s Hs). destruct (droplet_loop dt rest s) as [s1 rest'].
  specialize (Hstep d s1 IH). destruct (step_droplet dt d s1) as [s2 od].
  exact Hstep.
Qed.

(** ** The emission loop ends by its own test *)

Lemma spawnDroplet_accumulator (M : Host) (w : Sim * nat) :
  dropSpawnAccumulator (fst (spawnDroplet M w)) = dropSpawnAccumulator (fst w).
Proof. destruct w as [s k]. unfold spawnDroplet. destruct_ifs; reflexivity. Qed.

(** With fuel for every whole unit in the accumulator, the loop stops
    because [acc >= 1] has become false. *)
Lemma emit_loop_exits (M : Host) (fuel : nat) :
  forall w, dropSpawnAccumulator (fst w) < 1 + inject_Z (Z.of_nat fuel) ->
            dropSpawnAccumulator (fst (emit_loop M fuel w)) < 1.
Proof.
  induction fuel as [| fuel IH]; intros w Hw.
  - change (inject_Z (Z.of_nat 0)) with 0 in Hw. cbn [emit_loop]. lra.
  - cbn [emit_loop].
    destruct (Qle_bool 1 (dropSpawnAccumulator (fst w))) eqn:E.
    + apply IH. cbn [fst dropSpawnAccumulator set_dropSpawnAccumulator].
      rewrite spawnDroplet_accumulator.
      rewrite Nat2Z.inj_succ, <- Z.add_1_r, inject_Z_plus in Hw.
      change (inject_Z 1) with 1 in Hw. lra.
    + apply Qle_bool_false in E. exact E.
Qed.

Lemma emit_fuel_enough (acc : Q) : acc < 1 + inject_Z (Z.of_nat (emit_fuel acc)).
Proof.
  unfold emit_fuel. pose proof (Qlt_floor acc) as H.
  rewrite inject_Z_plus in H. change (inject_Z 1) with 1 in H.
  assert (Hz : (Qfloor acc <= Z.of_nat (Z.to_nat (Qfloor acc)))%Z) by lia.
  rewrite Zle_Qle in Hz. lra.
Qed.

(** After the emission block of [update] has run, less than one droplet
    is left in the accumulator. *)
Lemma update_emit_exits (M : Host) (dt : Q) (w : Sim * nat) :
  negb (isDraining (fst w)) && negb (whirlpoolActive (fst w))
    && Qltb 0 (volumePerSecond (fst w)) = true ->
  dropSpawnAccumulator (fst (update_emit M dt w)) < 1.
Proof.
  intros E. unfold update_emit. rewrite E. apply emit_loop_exits, emit_fuel_enough.
Qed.

(** ** Fields that [update] never assigns *)

Lemma same_static_refl (s : Sim) : same_static s s.
Proof. repeat split. Qed.

Lemma static_step_droplet (s0 : Sim) (dt : Q) (d : Droplet) (s : Sim) :
  same_static s0 s -> same_static s0 (fst (step_droplet dt d s)).
Proof.
  intros Hs. unfold step_droplet.
  repeat match goal with
         | |- context [if ?c then _ else _] => destruct c
         | |- context [let '(_, _) := ?p in _] => destruct p
         end; cbn [fst]; exact Hs.
Qed.

Lemma static_spawnDroplet (M : Host) (s0 : Sim) (w : Sim * nat) :
  same_static s0 (fst w) -> same_static s0 (fst (spawnDroplet M w)).
Proof.
  destruct w as [s k]. unfold spawnDroplet. cbn [fst].
  destruct (maxDroplets <=? length (droplets s))%nat; cbn [fst]; auto.
Qed.

Lemma static_stepSurface (M : Host) (s0 : Sim) (dt : Q) (s : Sim) :
  same_static s0 s -> same_static s0 (stepSurface M dt s).
Proof.
  intros Hs. unfold stepSurface.
  destruct (surfaceN s <=? 2)%Z; auto.
  assert (H2 : same_static s0
            (for_upto 0 (surfaceN (for_upto 1 (surfaceN s - 1)
                 (wave_at (width s / inject_Z (surfaceN s - 1)) (waveSpeed * waveSpeed) dt) s))
               (damp_at (Math_exp M (- waveDamping * dt)) dt)
               (for_upto 1 (surfaceN s - 1)
                 (wave_at (width s / inject_Z (surfaceN s - 1)) (waveSpeed * waveSpeed) dt) s))).
  { apply for_upto_ind; [intros i s' H'; exact H' |].
    apply for_upto_ind; [intros i s' H'; exact H' |].
    exact Hs. }
  cbv zeta. destruct (Qltb 0 surfaceViscosity); exact H2.
Qed.

Lemma static_whirlpool_sink (M : Host) (s0 : Sim) (dt : Q) (s : Sim) :
  same_static s0 s -> same_static s0 (whirlpool_sink M dt s).
Proof.
  intros Hs. unfold whirlpool_sink. apply for_upto_ind; auto.
  intros i s' H'. unfold sink_at.
  destruct ((xToIndex s (fst (whirlpoolCenter s)) + i <? 0)%Z
            || (surfaceN s' <=? xToIndex s (fst (whirlpoolCenter s)) + i)%Z); exact H'.
Qed.

Lemma static_update_emit (M : Host) (s0 : Sim) (dt : Q) (w : Sim * nat) :
  same_static s0 (fst w) -> same_static s0 (fst (update_emit M dt w)).
Proof.
  intros Hw. unfold update_emit.
  destruct (negb (isDraining (fst w)) && negb (whirlpoolActive (fst w))
            && Qltb 0 (volumePerSecond (fst w))); auto.
  apply emit_loop_ind.
  - intros w'. apply static_spawnDroplet.
  - intros e s H'. exact H'.
  - exact Hw.
Qed.

Lemma static_update_droplets (s0 : Sim) (dt : Q) (s : Sim) :
  same_static s0 s -> same_static s0 (update_droplets dt s).
Proof.
  intros Hs. unfold update_droplets.
  pose proof (droplet_loop_ind (same_static s0) dt
                (fun d s' => static_step_droplet s0 dt d s') (droplets s) s Hs) as H'.
  destruct (droplet_loop dt (droplets s) s) as [s' kept]. exact H'.
Qed.

(** ** Invariants of [update], block by block *)

Lemma update_ind (M : Host) (P : Sim -> Prop) :
  (forall now s, P s -> P (update_stream M now s)) ->
  (forall dt w, P (fst w) -> P (fst (update_emit M dt w))) ->
  (forall dt s, P s -> P (update_drain dt s)) ->
  (forall dt s, P s -> P (update_droplets dt s)) ->
  (forall dt s, P s -> P (update_whirlpool M dt s)) ->
  (forall b s, P s -> P (update_ceiling b s)) ->
  (forall dt s, P s -> P (stepSurface M dt s)) ->
  (forall s, P s -> P (update_autostop s)) ->
  forall now dt w, P (fst w) -> P (fst (update M now dt w)).
Proof.
  intros H1 H2 H3 H4 H5 H6 H7 H8 now dt w Hw.
  unfold update, update_with_dt. cbv zeta. cbn [fst].
  apply H8, H7, H6, H5, H4, H3, H2. cbn [fst]. now apply H1.
Qed.

Lemma static_update (M : Host) (now dt : Q) (w : Sim * nat) :
  same_static (fst w) (fst (update M now dt w)).
Proof.
  apply (update_ind M (same_static (fst w))).
  - intros now' s Hs. exact Hs.
  - intros dt' w'. apply static_update_emit.
  - intros dt' s Hs. unfold update_drain. destruct_ifs; exact Hs.
  - intros dt' s. apply static_update_droplets.
  - intros dt' s Hs. unfold update_whirlpool. destruct_ifs; [| exact Hs].
    now apply static_whirlpool_sink.
  - intros b s Hs. unfold update_ceiling. destruct_ifs; exact Hs.
  - intros dt' s. apply static_stepSurface.
  - intros s Hs. unfold update_autostop. destruct_ifs; exact Hs.
  - apply same_static_refl.
Qed.

(** ** Fields that [resize] never assigns *)

Lemma resize_keeps (newWidth newHeight : Q) (s : Sim) :
  volumePerSecond (resize newWidth newHeight s) = volumePerSecond s /\
  waterVolume (resize newWidth newHeight s) = waterVolume s /\
  targetFillHeight (resize newWidth newHeight s) = targetFillHeight s /\
  isDraining (resize newWidth newHeight s) = isDraining s /\
  length (droplets (resize newWidth newHeight s)) = length (droplets s) /\
  width (resize newWidth newHeight s) = newWidth /\
  height (resize newWidth newHeight s) = newHeight.
Proof.
  unfold resize. cbv zeta. cbn.
  match goal with
  | |- context [if (?a && ?b)%bool then for_upto ?lo ?hi ?body ?s3 else _] =>
      set (c := (a && b)%bool); set (s4 := for_upto lo hi body s3);
      assert (H4 : volumePerSecond s4 = volumePerSecond s3 /\
                   waterVolume s4 = waterVolume s3 /\
                   targetFillHeight s4 = targetFillHeight s3 /\
                   isDraining s4 = isDraining s3 /\
                   droplets s4 = droplets s3 /\
                   width s4 = width s3 /\ height s4 = height s3)
  end.
  { subst s4. apply for_upto_ind; [| repeat split]. intros i s' H'. exact H'. }
  destruct H4 as (E1 & E2 & E3 & E4 & E5 & E6 & E7).
  destruct c; rewrite ?E1, ?E2, ?E3, ?E4, ?E5, ?E6, ?E7, ?length_map;
    destruct (Qltb 0 (targetFillHeight s)); cbn; repeat split.
Qed.

(** ** Water height (C2) *)

(** C2, as stated, fails: with [targetFillHeight] still 0 the code falls
    back to the scene height, so [getWaterHeight] is [min(100, 50/10) = 5]
    where the stated formula gives [min(0, 5) = 0]. *)
Lemma getWaterHeight_not_spec_height :
  targetFillHeight untargeted = 0 /\
  getWaterHeight untargeted == 5 /\
  spec_height untargeted == 0 /\
  ~ getWaterHeight untargeted == spec_height untargeted.
Proof.
  split; [reflexivity |]. split; [vm_compute; reflexivity |].
  split; [vm_compute; reflexivity |].
  intros H. vm_compute in H. discriminate H.
Qed.

(** C2, amended: [getWaterHeight] is 0 when the width is not positive
    (in particular at width 0); otherwise it is
    [min(T, waterVolume / width)] where [T] is [targetFillHeight], or the
    scene height when [targetFillHeight] is 0. *)
Theorem getWaterHeight_spec (s : Sim) :
  (width s <= 0 -> getWaterHeight s = 0) /\
  (0 < width s -> ~ targetFillHeight s == 0 -> getWaterHeight s = spec_height s) /\
  (0 < width s -> targetFillHeight s == 0 ->
   getWaterHeight s = Qmin (height s) (waterVolume s / width s)).
Proof.
  unfold getWaterHeight, spec_height, js_or. repeat split.
  - intros Hw. apply Qle_bool_iff in Hw. now rewrite Hw.
  - intros Hw Ht. apply Qle_bool_false in Hw. rewrite Hw.
    destruct (Qeq_bool (targetFillHeight s) 0) eqn:E; [| reflexivity].
    apply Qeq_bool_iff in E. contradiction.
  - intros Hw Ht. apply Qle_bool_false in Hw. rewrite Hw.
    apply Qeq_bool_iff in Ht. now rewrite Ht.
Qed.

(** The amended statement at a simulation with a target (a 10 x 100
    window, target 100, 50 units of water) and at [untargeted]. *)
Lemma getWaterHeight_spec_witness :
  getWaterHeight (set_waterVolume 50 (setTargetFillHeight 100 (new_WaterSimulation 10 100)))
  = spec_height (set_waterVolume 50 (setTargetFillHeight 100 (new_WaterSimulation 10 100)))
  /\ getWaterHeight untargeted = Qmin (height untargeted) (waterVolume untargeted / width untargeted).
Proof.
  split.
  - apply (proj1 (proj2 (getWaterHeight_spec _))).
    + vm_compute. reflexivity.
    + intros H. vm_compute in H. discriminate H.
  - apply (proj2 (proj2 (getWaterHeight_spec _))).
    + vm_compute. reflexivity.
    + vm_compute. reflexivity.
Defined.

(** ** Time-step clamp (C5) *)

(** C5: [update] clamps its argument before any integrator sees it: the
    result is that of the body of [update] run at the clamped step, the
    clamped step lies in [0, 0.05], and [update] at [deltaTime] and at
    [min(0.05, max(0, deltaTime))] give the same state. *)
Theorem update_clamps_dt (M : Host) (now deltaTime : Q) (w : Sim * nat) :
  update M now deltaTime w = update_with_dt M now (clamp_dt deltaTime) w /\
  0 <= clamp_dt deltaTime <= 0.05 /\
  update M now deltaTime w = update M now (Qmin 0.05 (Qmax 0 deltaTime)) w.
Proof.
  split; [reflexivity |]. split; [apply clamp_dt_range |].
  unfold update. cbv zeta.
  change (Qmax 0 (Qmin 0.05 (Qmin 0.05 (Qmax 0 deltaTime))))
    with (clamp_dt (Qmin 0.05 (Qmax 0 deltaTime))).
  now rewrite clamp_dt_absorbs.
Qed.

(** ** Emission rate (C10) *)

Lemma reachable_emission_nonneg (M : Host) (s : Sim) :
  reachable M s -> 0 <= volumePerSecond s.
Proof.
  induction 1 as [iw ih | iw ih s _ IH | e s _ IH | e s _ IH | s _ IH
                 | now dt k s _ IH | s _ IH].
  - unfold new_WaterSimulation.
    rewrite (proj1 (resize_keeps iw ih fresh)). cbn. lra.
  - now rewrite (proj1 (resize_keeps iw ih s)).
  - exact IH.
  - cbn. apply Qmax_lub_l.
  - exact IH.
  - destruct (static_update M now dt (s, k)) as (_ & _ & _ & _ & E & _).
    cbn [fst] in E. now rewrite E.
  - exact IH.
Qed.

(** C10: [setEmission(e)] stores [max(0, e)]; a negative request is
    stored as 0; and the emission rate is negative in no reachable
    state. *)
Theorem setEmission_stores_clamped (M : Host) :
  (forall e s, volumePerSecond (setEmission e s) = Qmax 0 e) /\
  (forall e s, e < 0 -> volumePerSecond (setEmission e s) = 0) /\
  (forall s, reachable M s -> 0 <= volumePerSecond s).
Proof.
  split; [reflexivity |]. split.
  - intros e s He. cbn. destruct (Qmax_cases 0 e) as [[-> _] | [_ H]]; [reflexivity | lra].
  - apply reachable_emission_nonneg.
Qed.

(** C10 at a simulation whose controller asked for a rate of -3. *)
Lemma setEmission_stores_clamped_witness :
  volumePerSecond (setEmission (-3) (new_WaterSimulation 500 300)) = 0 /\
  0 <= volumePerSecond (setEmission (-3) (new_WaterSimulation 500 300)).
Proof.
  split.
  - apply (proj1 (proj2 (setEmission_stores_clamped demoHost))). reflexivity.
  - apply (proj2 (proj2 (setEmission_stores_clamped demoHost))).
    apply reach_setEmission, reach_new.
Defined.

(** ** Blocks that assign the heightfield only *)

Lemma same_but_surface_fields (s s' : Sim) :
  same_but_surface s s' ->
  droplets s' = droplets s /\ waterVolume s' = waterVolume s /\
  isDraining s' = isDraining s /\ whirlpoolActive s' = whirlpoolActive s /\
  drainRate s' = drainRate s /\ width s' = width s /\ height s' = height s /\
  targetFillHeight s' = targetFillHeight s /\ targetVolume s' = targetVolume s /\
  surfaceN s' = surfaceN s.
Proof.
  unfold same_but_surface. intros E.
  repeat split;
    [ exact (f_equal droplets E) | exact (f_equal waterVolume E)
    | exact (f_equal isDraining E) | exact (f_equal whirlpoolActive E)
    | exact (f_equal drainRate E) | exact (f_equal width E) | exact (f_equal height E)
    | exact (f_equal targetFillHeight E) | exact (f_equal targetVolume E)
    | exact (f_equal surfaceN E) ].
Qed.

Lemma stepSurface_surface_only (M : Host) (dt : Q) (s : Sim) :
  same_but_surface s (stepSurface M dt s).
Proof.
  unfold stepSurface. destruct (surfaceN s <=? 2)%Z; [reflexivity |].
  cbv zeta.
  match goal with |- same_but_surface s (if _ then set_h _ ?s2 else _) =>
    assert (H2 : same_but_surface s s2) end.
  { apply (for_upto_ind (same_but_surface s)); [intros i s' H'; exact H' |].
    apply (for_upto_ind (same_but_surface s)); [intros i s' H'; exact H' |].
    reflexivity. }
  destruct (Qltb 0 surfaceViscosity); exact H2.
Qed.

Lemma whirlpool_sink_surface_only (M : Host) (dt : Q) (s : Sim) :
  same_but_surface s (whirlpool_sink M dt s).
Proof.
  unfold whirlpool_sink. apply (for_upto_ind (same_but_surface s)); [| reflexivity].
  intros i s' H'. unfold sink_at. destruct_ifs; exact H'.
Qed.

(** ** Droplet cap (C6) *)

Lemma spawnDroplet_under_cap (M : Host) (w : Sim * nat) :
  under_cap (fst w) -> under_cap (fst (spawnDroplet M w)).
Proof.
  destruct w as [s k]. unfold under_cap, spawnDroplet. cbn [fst]. intros Hs.
  destruct (maxDroplets <=? length (droplets s))%nat eqn:E; cbn [fst]; [exact Hs |].
  apply Nat.leb_gt in E. cbn. rewrite length_app. cbn. lia.
Qed.

(** At the cap [spawnDroplet] returns without a droplet and without a
    call of [Math.random()]. *)
Lemma spawnDroplet_at_cap (M : Host) (s : Sim) (k : nat) :
  (maxDroplets <= length (droplets s))%nat -> spawnDroplet M (s, k) = (s, k).
Proof.
  intros Hs. unfold spawnDroplet. apply Nat.leb_le in Hs. now rewrite Hs.
Qed.

Lemma droplet_loop_kept (dt : Q) (ds : list Droplet) (s : Sim) :
  (length (snd (droplet_loop dt ds s)) <= length ds)%nat.
Proof.
  induction ds as [| d rest IH]; simpl; [lia |].
  destruct (droplet_loop dt rest s) as [s1 rest'].
  destruct (step_droplet dt d s1) as [s2 [d' |]]; simpl in *; lia.
Qed.

Lemma update_droplets_length (dt : Q) (s : Sim) :
  (length (droplets (update_droplets dt s)) <= length (droplets s))%nat.
Proof.
  unfold update_droplets. pose proof (droplet_loop_kept dt (droplets s) s) as H.
  destruct (droplet_loop dt (droplets s) s) as [s' kept]. exact H.
Qed.

Lemma update_under_cap (M : Host) (now dt : Q) (w : Sim * nat) :
  under_cap (fst w) -> under_cap (fst (update M now dt w)).
Proof.
  apply (update_ind M under_cap).
  - intros now' s Hs. exact Hs.
  - intros dt' w' Hw. unfold update_emit. destruct_ifs; [| exact Hw].
    apply emit_loop_ind; [apply spawnDroplet_under_cap | intros e s Hs; exact Hs | exact Hw].
  - intros dt' s Hs. unfold update_drain. destruct_ifs; exact Hs.
  - intros dt' s Hs. unfold under_cap in *.
    pose proof (update_droplets_length dt' s). lia.
  - intros dt' s Hs. unfold update_whirlpool. destruct_ifs; [| exact Hs].
    unfold under_cap.
    now rewrite (proj1 (same_but_surface_fields _ _ (whirlpool_sink_surface_only M dt' s))).
  - intros b s Hs. unfold update_ceiling. destruct_ifs; exact Hs.
  - intros dt' s Hs. unfold under_cap.
    now rewrite (proj1 (same_but_surface_fields _ _ (stepSurface_surface_only M dt' s))).
  - intros s Hs. unfold update_autostop. destruct_ifs; exact Hs.
Qed.

Lemma reachable_under_cap (M : Host) (s : Sim) : reachable M s -> under_cap s.
Proof.
  induction 1 as [iw ih | iw ih s _ IH | e s _ IH | e s _ IH | s _ IH
                 | now dt k s _ IH | s _ IH].
  - unfold new_WaterSimulation, under_cap.
    destruct (resize_keeps iw ih fresh) as (_ & _ & _ & _ & -> & _). cbn. lia.
  - unfold under_cap.
    destruct (resize_keeps iw ih s) as (_ & _ & _ & _ & -> & _). exact IH.
  - exact IH.
  - exact IH.
  - unfold under_cap. cbn. lia.
  - apply (update_under_cap M now dt (s, k)). exact IH.
  - exact IH.
Qed.

(** C6: in every reachable state the number of active droplets is at
    most [maxDroplets] = 1400, and at the cap [spawnDroplet] returns the
    state it was given. *)
Theorem droplet_cap (M : Host) :
  (forall s, reachable M s -> (length (droplets s) <= 1400)%nat) /\
  (forall s k, (1400 <= length (droplets s))%nat -> spawnDroplet M (s, k) = (s, k)).
Proof.
  split; [apply reachable_under_cap | apply spawnDroplet_at_cap].
Qed.

(** C6 at the state after the first [update] of a running timer. *)
Lemma droplet_cap_witness :
  (length (droplets (fst (update demoHost 0 0.016
     (setEmission 2500 (new_WaterSimulation 500 300), 0%nat)))) <= 1400)%nat.
Proof.
  apply (proj1 (droplet_cap demoHost)).
  apply reach_update, reach_setEmission, reach_new.
Defined.

(** ** Heightfield lengths (C9) *)

Lemma aset_length (a : list Q) (i : Z) (e : Q) : length (aset a i e) = length a.
Proof. unfold aset. destruct (i <? 0)%Z; [reflexivity | apply length_insert]. Qed.

Lemma bump_length (i : Z) (e : Q) (a : list Q) : length (bump i e a) = length a.
Proof. unfold bump. destruct (aget a i); [apply aset_length | reflexivity]. Qed.

Lemma fill0_length (a : list Q) : length (fill0 a) = length a.
Proof. apply length_map. Qed.

Lemma initSurfaceField_ok (s : Sim) : surface_ok (initSurfaceField s).
Proof.
  unfold surface_ok, initSurfaceField. cbn. rewrite length_replicate. lia.
Qed.

Lemma resample_at_ok (oldH oldV : list Q) (oldN i : Z) (s : Sim) :
  surface_ok s -> surface_ok (resample_at oldH oldV oldN i s).
Proof.
  unfold surface_ok, resample_at. cbn. now rewrite !aset_length.
Qed.

Lemma surface_ok_ext (s s' : Sim) :
  h s' = h s -> v s' = v s -> surfaceN s' = surfaceN s -> surface_ok s -> surface_ok s'.
Proof. unfold surface_ok. intros -> -> ->. auto. Qed.

Lemma resize_ok (newWidth newHeight : Q) (s : Sim) :
  surface_ok (resize newWidth newHeight s).
Proof.
  unfold resize. cbv zeta.
  set (s2 := if Qltb 0 _ then _ else _).
  set (s3 := initSurfaceField s2).
  assert (H3 : surface_ok s3) by apply initSurfaceField_ok.
  set (c := (_ && _)%bool).
  set (s4 := if c then _ else s3).
  assert (H4 : surface_ok s4).
  { subst s4. destruct c; [| exact H3]. apply for_upto_ind; [| exact H3].
    intros i s'. apply resample_at_ok. }
  apply (surface_ok_ext s4); [reflexivity | reflexivity | reflexivity | exact H4].
Qed.

Lemma addRippleImpulse_ok (e strength : Q) (s : Sim) :
  surface_ok s -> surface_ok (addRippleImpulse e strength s).
Proof.
  unfold surface_ok, addRippleImpulse. cbn. now rewrite !bump_length.
Qed.

Lemma wave_at_ok (dx c2 dt : Q) (i : Z) (s : Sim) :
  surface_ok s -> surface_ok (wave_at dx c2 dt i s).
Proof. unfold surface_ok, wave_at. cbn. now rewrite aset_length. Qed.

Lemma damp_at_ok (damp dt : Q) (i : Z) (s : Sim) :
  surface_ok s -> surface_ok (damp_at damp dt i s).
Proof. unfold surface_ok, damp_at. cbn. now rewrite !aset_length. Qed.

Lemma blur_at_length (hs : list Q) (a : Q) (i : Z) (tmp : list Q) :
  length (blur_at hs a i tmp) = length tmp.
Proof. apply aset_length. Qed.

Lemma stepSurface_ok (M : Host) (dt : Q) (s : Sim) :
  surface_ok s -> surface_ok (stepSurface M dt s).
Proof.
  intros Hs. unfold stepSurface.
  destruct (surfaceN s <=? 2)%Z eqn:EN; [exact Hs |].
  apply Z.leb_gt in EN. cbv zeta.
  set (s1 := for_upto 1 (surfaceN s - 1) _ s).
  assert (H1 : surface_ok s1 /\ surfaceN s1 = surfaceN s).
  { subst s1. apply (for_upto_ind (fun s' => surface_ok s' /\ surfaceN s' = surfaceN s));
      [| now split].
    intros i s' [H' E']. split; [now apply wave_at_ok | exact E']. }
  set (s2 := for_upto 0 (surfaceN s1) _ s1).
  assert (H2 : surface_ok s2 /\ surfaceN s2 = surfaceN s).
  { subst s2. apply (for_upto_ind (fun s' => surface_ok s' /\ surfaceN s' = surfaceN s));
      [| exact H1].
    intros i s' [H' E']. split; [now apply damp_at_ok | exact E']. }
  destruct H2 as [[Hh2 Hv2] E2].
  destruct (Qltb 0 surfaceViscosity); [| split; assumption].
  split; [| exact Hv2]. cbn [h set_h surfaceN].
  match goal with |- Z.of_nat (length (for_upto ?lo ?hi ?body ?t)) = _ =>
    assert (Ht : length (for_upto lo hi body t) = length t) end.
  { apply (for_upto_ind (fun t' => length t' = _)); [| reflexivity].
    intros i t' Ht'. now rewrite blur_at_length. }
  rewrite Ht, !aset_length, length_replicate. lia.
Qed.

Lemma whirlpool_sink_ok (M : Host) (dt : Q) (s : Sim) :
  surface_ok s -> surface_ok (whirlpool_sink M dt s).
Proof.
  intros Hs. unfold whirlpool_sink. apply for_upto_ind; [| exact Hs].
  intros i s' H'. unfold sink_at. destruct_ifs; [exact H' |].
  unfold surface_ok in *. cbn. now rewrite aset_length.
Qed.

Lemma reset_ok (s : Sim) : surface_ok s -> surface_ok (reset s).
Proof. unfold surface_ok, reset. cbn. now rewrite !fill0_length. Qed.

Lemma step_droplet_ok (dt : Q) (d : Droplet) (s : Sim) :
  surface_ok s -> surface_ok (fst (step_droplet dt d s)).
Proof.
  intros Hs. unfold step_droplet.
  repeat match goal with
         | |- context [if ?c then _ else _] => destruct c
         | |- context [let '(_, _) := ?p in _] => destruct p
         end; cbn [fst]; try exact Hs; apply addRippleImpulse_ok; exact Hs.
Qed.

Lemma update_ok (M : Host) (now dt : Q) (w : Sim * nat) :
  surface_ok (fst w) -> surface_ok (fst (update M now dt w)).
Proof.
  apply (update_ind M surface_ok).
  - intros now' s Hs. exact Hs.
  - intros dt' w' Hw. unfold update_emit. destruct_ifs; [| exact Hw].
    apply emit_loop_ind; [| intros e s Hs; exact Hs | exact Hw].
    intros [s k] Hs. unfold spawnDroplet. destruct_ifs; exact Hs.
  - intros dt' s Hs. unfold update_drain. destruct_ifs; exact Hs.
  - intros dt' s Hs. unfold update_droplets.
    pose proof (droplet_loop_ind surface_ok dt' (step_droplet_ok dt') (droplets s) s Hs) as H.
    destruct (droplet_loop dt' (droplets s) s) as [s' kept]. exact H.
  - intros dt' s Hs. unfold update_whirlpool. destruct_ifs; [| exact Hs].
    now apply whirlpool_sink_ok.
  - intros b s Hs. unfold update_ceiling. destruct_ifs; exact Hs.
  - intros dt' s. apply stepSurface_ok.
  - intros s Hs. unfold update_autostop. destruct_ifs; exact Hs.
Qed.

Lemma reachable_surface_ok (M : Host) (s : Sim) : reachable M s -> surface_ok s.
Proof.
  induction 1 as [iw ih | iw ih s _ IH | e s _ IH | e s _ IH | s _ IH
                 | now dt k s _ IH | s _ IH].
  - unfold new_WaterSimulation. apply resize_ok.
  - apply resize_ok.
  - exact IH.
  - exact IH.
  - now apply reset_ok.
  - apply (update_ok M now dt (s, k)). exact IH.
  - exact IH.
Qed.

(** C9: [h.length == v.length == surfaceN] holds after
    [initSurfaceField] and [resize] from any state, is kept by
    [stepSurface], [addRippleImpulse], the whirlpool sink and [reset], and
    so holds in every reachable state. *)
Theorem surface_lengths (M : Host) :
  (forall s, surface_ok (initSurfaceField s)) /\
  (forall iw ih s, surface_ok (resize iw ih s)) /\
  (forall dt s, surface_ok s -> surface_ok (stepSurface M dt s)) /\
  (forall e strength s, surface_ok s -> surface_ok (addRippleImpulse e strength s)) /\
  (forall dt s, surface_ok s -> surface_ok (whirlpool_sink M dt s)) /\
  (forall s, surface_ok s -> surface_ok (reset s)) /\
  (forall s, reachable M s -> surface_ok s).
Proof.
  split; [exact initSurfaceField_ok |].
  split; [exact resize_ok |].
  split; [exact (stepSurface_ok M) |].
  split; [exact addRippleImpulse_ok |].
  split; [exact (whirlpool_sink_ok M) |].
  split; [exact reset_ok | exact (reachable_surface_ok M)].
Qed.

(** C9 at a newly built simulation, after one [stepSurface], and after
    a ripple impulse. *)
Lemma surface_lengths_witness :
  surface_ok (stepSurface demoHost 0.016 (new_WaterSimulation 500 300)) /\
  surface_ok (addRippleImpulse 250 100 (new_WaterSimulation 500 300)) /\
  surface_ok (reset (new_WaterSimulation 500 300)).
Proof.
  pose proof (surface_lengths demoHost) as (_ & Hresize & Hstep & Himp & _ & Hreset & _).
  split; [exact (Hstep 0.016 _ (Hresize 500 300 fresh)) |].
  split; [exact (Himp 250 100 _ (Hresize 500 300 fresh)) |].
  exact (Hreset _ (Hresize 500 300 fresh)).
Defined.

(** ** The reservoir through [update] *)

Lemma tank_getWaterHeight (s s' : Sim) :
  tank s' = tank s -> getWaterHeight s' = getWaterHeight s.
Proof.
  unfold tank, getWaterHeight. intros E. injection E as E1 E2 E3 E4 E5 E6.
  now rewrite E1, E2, E4, E5.
Qed.

Lemma tank_surface_only (s s' : Sim) : same_but_surface s s' -> tank s' = tank s.
Proof.
  intros E.
  destruct (same_but_surface_fields s s' E)
    as (_ & E1 & E2 & E3 & E4 & E5 & E6 & E7 & E8 & _).
  unfold tank. now rewrite E1, E2, E3, E4, E5, E6, E7, E8.
Qed.

Lemma tank_update_emit (M : Host) (dt : Q) (w : Sim * nat) :
  tank (fst (update_emit M dt w)) = tank (fst w).
Proof.
  unfold update_emit. destruct_ifs; [| reflexivity].
  apply (emit_loop_ind M (fun s' => tank s' = tank (fst w))).
  - intros [s k]. unfold spawnDroplet. destruct_ifs; intros Hs; exact Hs.
  - intros e s Hs. exact Hs.
  - reflexivity.
Qed.

(** While the simulation is draining, the emission block does nothing. *)
Lemma update_emit_draining (M : Host) (dt : Q) (w : Sim * nat) :
  isDraining (fst w) = true -> update_emit M dt w = w.
Proof. intros E. unfold update_emit. now rewrite E. Qed.

Lemma update_drain_idle (dt : Q) (s : Sim) :
  isDraining s = false -> update_drain dt s = s.
Proof. intros E. unfold update_drain. now rewrite E. Qed.

(** ** The droplet loop *)

(** What one iteration of the droplet loop does: the droplet merges, falls
    through, or stays. *)
Lemma step_droplet_cases (dt : Q) (d : Droplet) (s : Sim) :
  (exists e strength,
      step_droplet dt d s =
      (addRippleImpulse e strength
         (set_waterVolume (min_or_Infinity (targetVolume s) (waterVolume s + vol d)) s),
       None)) \/
  step_droplet dt d s = (s, None) \/
  (exists d', step_droplet dt d s = (s, Some d') /\ vol d' = vol d /\ r d' = r d /\
              (x d' = r d \/ x d' = width s - r d \/
               (r d <= x d' <= width s - r d))).
Proof.
  unfold step_droplet.
  destruct (Qltb (x d + vx d * airDrag * dt) (r d)) eqn:E1;
    [| destruct (Qltb (width s - r d) (x d + vx d * airDrag * dt)) eqn:E2];
    cbv zeta beta iota;
    (match goal with |- context [if Qle_bool ?a ?b then _ else _] =>
       destruct (Qle_bool a b) end; [left; eauto |]);
    (match goal with |- context [if Qltb ?a ?b then _ else _] =>
       destruct (Qltb a b) end; [right; left; reflexivity |]);
    right; right; eexists; (split; [reflexivity |]); cbn;
    (split; [reflexivity |]); (split; [reflexivity |]).
  - left. reflexivity.
  - right. left. reflexivity.
  - apply Qltb_false in E1. apply Qltb_false in E2. right. right. split; assumption.
Qed.

Lemma min_or_Infinity_mono (tv a e : Q) :
  0 <= e -> (tv == 0 \/ a <= tv) ->
  a <= min_or_Infinity tv (a + e) /\ (tv == 0 \/ min_or_Infinity tv (a + e) <= tv).
Proof.
  intros He Htv. unfold min_or_Infinity.
  destruct (Qeq_bool tv 0) eqn:E.
  - apply Qeq_bool_iff in E. split; [lra | now left].
  - apply Qeq_bool_neq in E. destruct Htv as [Htv | Htv]; [contradiction |].
    split; [apply Q.min_glb; lra | right; apply Qmin_glb_l].
Qed.

(** The volume never goes down in the droplet loop when it starts at or
    below a non-zero target and no droplet carries a negative volume. *)
Lemma droplet_loop_volume (dt : Q) (ds : list Droplet) (s : Sim) :
  Forall (fun d => 0 <= vol d) ds ->
  (targetVolume s == 0 \/ waterVolume s <= targetVolume s) ->
  waterVolume s <= waterVolume (fst (droplet_loop dt ds s)) /\
  targetVolume (fst (droplet_loop dt ds s)) = targetVolume s /\
  (targetVolume s == 0 \/ waterVolume (fst (droplet_loop dt ds s)) <= targetVolume s).
Proof.
  intros Hds Htv. induction Hds as [| d rest Hd _ IH]; simpl.
  - split; [lra | split; [reflexivity | exact Htv]].
  - destruct (droplet_loop dt rest s) as [s1 rest']. cbn [fst] in IH.
    destruct IH as (IH1 & IH2 & IH3).
    destruct (step_droplet_cases dt d s1) as [(e & st & E) | [E | (d' & E & _)]];
      rewrite E; cbn [fst]; try (split; [exact IH1 | split; [exact IH2 | exact IH3]]).
    change (waterVolume (addRippleImpulse e st ?t)) with (waterVolume t).
    change (targetVolume (addRippleImpulse e st ?t)) with (targetVolume t).
    cbn [waterVolume targetVolume set_waterVolume]. rewrite IH2.
    rewrite <- IH2 in IH3.
    destruct (min_or_Infinity_mono (targetVolume s1) (waterVolume s1) (vol d) Hd IH3)
      as [H1 H2].
    rewrite IH2 in H1, H2.
    split; [lra | split; [reflexivity | exact H2]].
Qed.

(** A droplet that stays keeps its volume and radius, and its x-position
    is inside the scene if its radius fits there. *)
Lemma droplet_loop_kept_props (dt : Q) (w0 : Q) (ds : list Droplet) (s : Sim) :
  width s = w0 ->
  width (fst (droplet_loop dt ds s)) = w0 /\
  Forall (fun d' => (0 <= r d' <= w0 -> 0 <= x d' <= w0) /\
                    exists d, In d ds /\ vol d' = vol d /\ r d' = r d)
         (snd (droplet_loop dt ds s)).
Proof.
  intros Hw. induction ds as [| d rest IH]; simpl.
  - split; [exact Hw | constructor].
  - destruct (droplet_loop dt rest s) as [s1 rest']. cbn [fst snd] in IH.
    destruct IH as [IHw IHf].
    assert (IHf' : Forall (fun d' => (0 <= r d' <= w0 -> 0 <= x d' <= w0) /\
                    exists d0, (d = d0 \/ In d0 rest) /\ vol d' = vol d0 /\ r d' = r d0) rest').
    { eapply Forall_impl; [exact IHf |]. cbn. intros d' [H1 (d0 & H2 & H3)].
      split; [exact H1 | exists d0; tauto]. }
    destruct (step_droplet_cases dt d s1) as [(e & st & E) | [E | (d' & E & Hv & Hr & Hx)]];
      rewrite E; cbn [fst snd]; try (split; [exact IHw | exact IHf']).
    split; [exact IHw |]. constructor; [| exact IHf'].
    split; [| exists d; tauto].
    rewrite Hr. rewrite IHw in Hx. intros [Hr0 Hrw].
    destruct Hx as [Hx | [Hx | [Hx1 Hx2]]]; rewrite ?Hx; lra.
Qed.

(** The states [update] goes through, named. *)
Lemma update_chain (M : Host) (now deltaTime : Q) (s : Sim) (k : nat) :
  exists s1 w2 s3 s5 s6 s7 s8,
    s1 = update_stream M now s /\
    w2 = update_emit M (clamp_dt deltaTime) (s1, k) /\
    s3 = update_drain (clamp_dt deltaTime) (fst w2) /\
    s5 = update_droplets (clamp_dt deltaTime) s3 /\
    s6 = update_whirlpool M (clamp_dt deltaTime) s5 /\
    s7 = update_ceiling (getBaseSurfaceY s3) s6 /\
    s8 = stepSurface M (clamp_dt deltaTime) s7 /\
    update M now deltaTime (s, k) = (update_autostop s8, snd w2).
Proof. repeat eexists. Qed.

Lemma tank_update_whirlpool (M : Host) (dt : Q) (s : Sim) :
  tank (update_whirlpool M dt s) = tank s /\
  droplets (update_whirlpool M dt s) = droplets s.
Proof.
  unfold update_whirlpool. destruct_ifs; [| split; reflexivity].
  split; [apply tank_surface_only, whirlpool_sink_surface_only |].
  apply (same_but_surface_fields _ _ (whirlpool_sink_surface_only M dt s)).
Qed.

Lemma tank_stepSurface (M : Host) (dt : Q) (s : Sim) :
  tank (stepSurface M dt s) = tank s /\ droplets (stepSurface M dt s) = droplets s.
Proof.
  split; [apply tank_surface_only, stepSurface_surface_only |].
  apply (same_but_surface_fields _ _ (stepSurface_surface_only M dt s)).
Qed.

Lemma update_autostop_keeps (s : Sim) :
  waterVolume (update_autostop s) = waterVolume s /\
  droplets (update_autostop s) = droplets s /\
  width (update_autostop s) = width s /\ height (update_autostop s) = height s.
Proof. unfold update_autostop. destruct_ifs; repeat split. Qed.

Lemma update_ceiling_droplets (b : Q) (s : Sim) :
  droplets (update_ceiling b s) = droplets s.
Proof. unfold update_ceiling. destruct_ifs; reflexivity. Qed.

(** The droplets of the state [update] returns are those the droplet
    loop kept. *)
Lemma update_droplets_final (M : Host) (now deltaTime : Q) (s : Sim) (k : nat) :
  droplets (fst (update M now deltaTime (s, k))) =
  droplets (update_droplets (clamp_dt deltaTime)
              (update_drain (clamp_dt deltaTime)
                 (fst (update_emit M (clamp_dt deltaTime) (update_stream M now s, k))))).
Proof.
  destruct (update_chain M now deltaTime s k)
    as (s1 & w2 & s3 & s5 & s6 & s7 & s8 & E1 & E2 & E3 & E5 & E6 & E7 & E8 & E).
  rewrite E. cbn [fst]. rewrite <- E1, <- E2, <- E3, <- E5.
  rewrite (proj1 (proj2 (update_autostop_keeps s8))), E8.
  rewrite (proj2 (tank_stepSurface M _ s7)), E7, update_ceiling_droplets, E6.
  apply (proj2 (tank_update_whirlpool M _ s5)).
Qed.

(** ** Monotonic fill (C1) *)

Lemma spawnDroplet_vols_ok (M : Host) (w : Sim * nat) :
  vols_ok (fst w) -> vols_ok (fst (spawnDroplet M w)).
Proof.
  destruct w as [s k]. unfold vols_ok, spawnDroplet. cbn [fst]. intros Hs.
  destruct_ifs; cbn [fst]; [exact Hs |].
  cbn [droplets set_droplets]. apply Forall_app. split; [exact Hs |].
  constructor; [| constructor]. unfold droplet_ok. cbn [vol r].
  split; [eapply Qle_trans; [| apply Qmax_lub_l]; lra |].
  split; [apply Qmax_lub_l |]. apply Q.max_lub; [lra | apply Qmin_glb_l].
Qed.

Lemma update_emit_vols_ok (M : Host) (dt : Q) (w : Sim * nat) :
  vols_ok (fst w) -> vols_ok (fst (update_emit M dt w)).
Proof.
  intros Hw. unfold update_emit. destruct_ifs; [| exact Hw].
  apply emit_loop_ind; [apply spawnDroplet_vols_ok | intros e s Hs; exact Hs | exact Hw].
Qed.

Lemma update_droplets_vols_ok (dt : Q) (s : Sim) :
  vols_ok s -> vols_ok (update_droplets dt s).
Proof.
  unfold vols_ok, update_droplets. intros Hs.
  destruct (droplet_loop_kept_props dt (width s) (droplets s) s eq_refl) as [_ H].
  destruct (droplet_loop dt (droplets s) s) as [s' kept]. cbn [snd] in H.
  cbn [droplets set_droplets].
  eapply Forall_impl; [exact H |]. cbn. intros d' [_ (d & Hin & Hv & Hr)].
  unfold droplet_ok. rewrite Hv, Hr. rewrite Forall_forall in Hs.
  apply Hs. now apply list_elem_of_In.
Qed.

(** With the drain idle, from a state whose droplets carry no negative
    volume, whose volume does not exceed a non-zero target and whose water
    height does not exceed the scene height, [update] does not lower the
    volume. *)
Lemma update_volume_mono (M : Host) (now deltaTime : Q) (s : Sim) (k : nat) :
  isDraining s = false ->
  vols_ok s ->
  (targetVolume s == 0 \/ waterVolume s <= targetVolume s) ->
  getWaterHeight s <= height s ->
  waterVolume s <= waterVolume (fst (update M now deltaTime (s, k))).
Proof.
  intros Hidle Hvols Htv Hh.
  destruct (update_chain M now deltaTime s k)
    as (s1 & w2 & s3 & s5 & s6 & s7 & s8 & E1 & E2 & E3 & E5 & E6 & E7 & E8 & E).
  rewrite E. cbn [fst]. rewrite (proj1 (update_autostop_keeps s8)).
  assert (T1 : tank s1 = tank s) by (rewrite E1; reflexivity).
  assert (V1 : vols_ok s1) by (rewrite E1; exact Hvols).
  assert (T2 : tank (fst w2) = tank s).
  { rewrite E2, tank_update_emit. exact T1. }
  assert (V2 : vols_ok (fst w2)).
  { rewrite E2. apply update_emit_vols_ok. exact V1. }
  assert (I2 : isDraining (fst w2) = false).
  { unfold tank in T2. injection T2 as _ _ _ _ _ T2. congruence. }
  rewrite (update_drain_idle _ _ I2) in E3. subst s3.
  assert (H2 : getWaterHeight (fst w2) = getWaterHeight s)
    by (apply tank_getWaterHeight; exact T2).
  assert (F2 : waterVolume (fst w2) = waterVolume s /\ targetVolume (fst w2) = targetVolume s
               /\ height (fst w2) = height s).
  { unfold tank in T2. injection T2. intros. repeat split; assumption. }
  destruct F2 as (F2v & F2t & F2h).
  assert (V5 : waterVolume s <= waterVolume s5).
  { rewrite E5. unfold update_droplets.
    assert (V2' : Forall (fun d => 0 <= vol d) (droplets (fst w2))).
    { eapply Forall_impl; [exact V2 |]. intros d Hd. exact (proj1 Hd). }
    destruct (droplet_loop_volume (clamp_dt deltaTime) (droplets (fst w2)) (fst w2) V2')
      as (H5 & _).
    { now rewrite F2v, F2t. }
    destruct (droplet_loop (clamp_dt deltaTime) (droplets (fst w2)) (fst w2)) as [s' kept].
    cbn [fst] in H5. cbn [waterVolume set_droplets]. now rewrite <- F2v. }
  assert (V6 : waterVolume s6 = waterVolume s5).
  { rewrite E6. pose proof (proj1 (tank_update_whirlpool M (clamp_dt deltaTime) s5)) as T.
    unfold tank in T. now injection T. }
  assert (E7' : s7 = s6).
  { rewrite E7. unfold update_ceiling, getBaseSurfaceY. rewrite H2, F2h.
    assert (Hb : Qltb (height s - getWaterHeight s) 0 = false) by (apply Qltb_false; lra).
    now rewrite Hb. }
  rewrite E8. pose proof (proj1 (tank_stepSurface M (clamp_dt deltaTime) s7)) as T.
  unfold tank in T. injection T as -> _. rewrite E7', V6. exact V5.
Qed.

Lemma update_vols_ok (M : Host) (now dt : Q) (w : Sim * nat) :
  vols_ok (fst w) -> vols_ok (fst (update M now dt w)).
Proof.
  apply (update_ind M vols_ok).
  - intros now' s Hs. exact Hs.
  - intros dt' w'. apply update_emit_vols_ok.
  - intros dt' s Hs. unfold update_drain. destruct_ifs; exact Hs.
  - intros dt' s. apply update_droplets_vols_ok.
  - intros dt' s Hs. unfold vols_ok.
    now rewrite (proj2 (tank_update_whirlpool M dt' s)).
  - intros b s Hs. unfold vols_ok. now rewrite update_ceiling_droplets.
  - intros dt' s Hs. unfold vols_ok. now rewrite (proj2 (tank_stepSurface M dt' s)).
  - intros s Hs. unfold vols_ok. now rewrite (proj1 (proj2 (update_autostop_keeps s))).
Qed.

Lemma resize_vols_ok (newWidth newHeight : Q) (s : Sim) :
  vols_ok s -> vols_ok (resize newWidth newHeight s).
Proof.
  unfold vols_ok, resize. cbv zeta. intros Hs.
  set (s2 := if Qltb 0 _ then _ else _).
  set (s3 := initSurfaceField s2).
  assert (H3 : droplets s3 = droplets s) by (subst s3 s2; destruct_ifs; reflexivity).
  set (c := (_ && _)%bool).
  set (s4 := if c then _ else s3).
  assert (H4 : droplets s4 = droplets s).
  { subst s4. destruct c; [| exact H3].
    apply (for_upto_ind (fun s' => droplets s' = droplets s)); [| exact H3].
    intros i s' H'. exact H'. }
  cbn [droplets set_droplets set_streamX]. rewrite H4.
  apply Forall_map. eapply Forall_impl; [exact Hs |]. intros d Hd. exact Hd.
Qed.

(** In a reachable state every droplet has the volume and radius bounds
    of [spawnDroplet]. *)

Lemma reachable_vols_ok (M : Host) (s : Sim) : reachable M s -> vols_ok s.
Proof.
  induction 1 as [iw ih | iw ih s _ IH | e s _ IH | e s _ IH | s _ IH
                 | now dt k s _ IH | s _ IH].
  - unfold new_WaterSimulation. apply resize_vols_ok. constructor.
  - now apply resize_vols_ok.
  - exact IH.
  - exact IH.
  - constructor.
  - apply (update_vols_ok M now dt (s, k)). exact IH.
  - exact IH.
Qed.

(** C1, as stated, fails: in [shrunk] the drain is idle, the water
    stands 150 high in a scene 100 high, and the "keep base surface
    stable" block of [update] resets the volume from 75000 to
    [width * height = 50000]. *)
Lemma update_lowers_volume :
  isDraining shrunk = false /\
  waterVolume shrunk == 75000 /\
  waterVolume (fst (update demoHost 0 0.016 (shrunk, 0%nat))) == 50000 /\
  ~ waterVolume shrunk <= waterVolume (fst (update demoHost 0 0.016 (shrunk, 0%nat))).
Proof.
  assert (E : waterVolume (fst (update demoHost 0 0.016 (shrunk, 0%nat))) == 50000).
  { destruct (update_chain demoHost 0 0.016 shrunk 0)
      as (s1 & w2 & s3 & s5 & s6 & s7 & s8 & E1 & E2 & E3 & E5 & E6 & E7 & E8 & E).
    rewrite E. cbn [fst]. rewrite (proj1 (update_autostop_keeps s8)), E8.
    pose proof (proj1 (tank_stepSurface demoHost (clamp_dt 0.016) s7)) as T.
    unfold tank in T. injection T as -> _.
    assert (E3' : s3 = update_stream demoHost 0 shrunk).
    { rewrite E3, E2, E1. reflexivity. }
    assert (B : Qltb (getBaseSurfaceY s3) 0 = true).
    { rewrite E3'. vm_compute. reflexivity. }
    rewrite E7. unfold update_ceiling. rewrite B. cbn [waterVolume set_waterVolume].
    assert (W6 : width s6 = 500 /\ height s6 = 100).
    { pose proof (static_update_droplets s3 (clamp_dt 0.016) s3 (same_static_refl s3)) as S5.
      rewrite <- E5 in S5.
      pose proof (proj1 (tank_update_whirlpool demoHost (clamp_dt 0.016) s5)) as T6.
      rewrite <- E6 in T6. unfold tank in T6. injection T6 as _ _ _ -> -> _.
      destruct S5 as (-> & -> & _). rewrite E3'. split; reflexivity. }
    destruct W6 as [-> ->]. reflexivity. }
  split; [reflexivity |]. split; [reflexivity |]. split; [exact E |].
  rewrite E. intros H. vm_compute in H. apply H. reflexivity.
Qed.

(** C1, amended: for every [update] call made in a reachable state while
    [isDraining] is false, if the volume does not exceed a non-zero
    [targetVolume] and the water height does not exceed the scene height,
    the volume after the call is at least the volume before it. *)
Theorem monotonic_fill (M : Host) (now deltaTime : Q) (s : Sim) (k : nat) :
  reachable M s ->
  isDraining s = false ->
  (targetVolume s == 0 \/ waterVolume s <= targetVolume s) ->
  getWaterHeight s <= height s ->
  waterVolume s <= waterVolume (fst (update M now deltaTime (s, k))).
Proof.
  intros Hr Hidle Htv Hh.
  apply update_volume_mono; [exact Hidle | exact (reachable_vols_ok M s Hr) | exact Htv | exact Hh].
Qed.

(** C1 at the first [update] of a timer that fills a 500 x 300 window. *)
Lemma monotonic_fill_witness :
  waterVolume (setEmission 2500 (reset (setTargetFillHeight 300 (new_WaterSimulation 500 300))))
  <= waterVolume (fst (update demoHost 0 0.016
       (setEmission 2500 (reset (setTargetFillHeight 300 (new_WaterSimulation 500 300))),
        0%nat))).
Proof.
  apply (monotonic_fill demoHost 0 0.016).
  - apply reach_setEmission, reach_reset, reach_setTargetFillHeight, reach_new.
  - reflexivity.
  - right. vm_compute. discriminate.
  - vm_compute. discriminate.
Defined.

(** ** Boundary reflection (C7) *)

(** C7, as stated, fails: the first [update] in [narrow] spawns one
    droplet at x = 1; its radius is at least 1.5, so the left-boundary
    branch sets its x to its radius, beyond the width 1, and the droplet
    stays in the list. *)
Lemma droplet_outside_narrow_scene :
  width (fst (update demoHost 0 0.004 (narrow, 0%nat))) = 1 /\
  length (droplets (fst (update demoHost 0 0.004 (narrow, 0%nat)))) = 1%nat /\
  Forall (fun d => 1 < x d /\ x d = r d)
         (droplets (fst (update demoHost 0 0.004 (narrow, 0%nat)))) /\
  ~ Forall (fun d => 0 <= x d <= 1)
           (droplets (fst (update demoHost 0 0.004 (narrow, 0%nat)))).
Proof.
  assert (E : exists d, droplets (fst (update demoHost 0 0.004 (narrow, 0%nat))) = [d]
                        /\ 1 < x d /\ x d = r d).
  { eexists. split; [vm_compute; reflexivity |]. split; [vm_compute |]; reflexivity. }
  destruct E as (d & E & Hx & Hr).
  split; [vm_compute; reflexivity |]. rewrite E.
  split; [reflexivity |]. split; [repeat constructor; assumption |].
  intros H. apply Forall_inv in H. lra.
Qed.

(** The side-boundary branches of the droplet loop, for a droplet that
    stays: the position after integration is clamped to [r] on the left
    and to [width - r] on the right, and on either contact the horizontal
    velocity (after air drag) is multiplied by -0.35. *)
Lemma step_droplet_reflects (dt : Q) (d : Droplet) (s s' : Sim) (d' : Droplet) :
  step_droplet dt d s = (s', Some d') ->
  (x d + vx d * airDrag * dt < r d ->
   x d' = r d /\ vx d' = vx d * airDrag * -0.35) /\
  (r d <= x d + vx d * airDrag * dt -> width s - r d < x d + vx d * airDrag * dt ->
   x d' = width s - r d /\ vx d' = vx d * airDrag * -0.35) /\
  (r d <= x d + vx d * airDrag * dt <= width s - r d ->
   x d' = x d + vx d * airDrag * dt /\ vx d' = vx d * airDrag).
Proof.
  unfold step_droplet.
  destruct (Qltb (x d + vx d * airDrag * dt) (r d)) eqn:E1;
    [| destruct (Qltb (width s - r d) (x d + vx d * airDrag * dt)) eqn:E2];
    cbv zeta beta iota;
    (match goal with |- context [if Qle_bool ?a ?b then _ else _] =>
       destruct (Qle_bool a b) end; [discriminate |]);
    (match goal with |- context [if Qltb ?a ?b then _ else _] =>
       destruct (Qltb a b) end; [discriminate |]);
    intros E; injection E as _ <-; cbn [x vx].
  - apply Qltb_true in E1. repeat split; intros; try reflexivity; lra.
  - apply Qltb_false in E1. apply Qltb_true in E2.
    repeat split; intros; try reflexivity; lra.
  - apply Qltb_false in E1. apply Qltb_false in E2.
    repeat split; intros; try reflexivity; lra.
Qed.

Lemma update_emit_width (M : Host) (now dt : Q) (s : Sim) (k : nat) :
  width (update_drain dt (fst (update_emit M dt (update_stream M now s, k)))) = width s.
Proof.
  assert (H : same_static s (update_drain dt
                               (fst (update_emit M dt (update_stream M now s, k))))).
  { assert (H2 : same_static s (fst (update_emit M dt (update_stream M now s, k))))
      by (apply static_update_emit; exact (same_static_refl s)).
    revert H2. generalize (fst (update_emit M dt (update_stream M now s, k))).
    intros s2 H2. unfold update_drain. destruct_ifs; exact H2. }
  exact (proj1 H).
Qed.

(** C7, amended: after an [update] step every droplet that remains in
    the active list and whose radius lies in [0, width] has its
    x-position in [0, width]; in a reachable state whose width is at
    least the largest radius 5.5 that is every remaining droplet; and a
    droplet that stays after contact with a side boundary has been put at
    [r] or [width - r] with its horizontal velocity multiplied by
    -0.35. *)
Theorem boundary_reflection (M : Host) :
  (forall now deltaTime s k d',
      In d' (droplets (fst (update M now deltaTime (s, k)))) ->
      0 <= r d' <= width s -> 0 <= x d' <= width s) /\
  (forall now deltaTime s k d',
      reachable M s -> 5.5 <= width s ->
      In d' (droplets (fst (update M now deltaTime (s, k)))) ->
      0 <= x d' <= width s) /\
  (forall dt d s s' d',
      step_droplet dt d s = (s', Some d') ->
      (x d + vx d * airDrag * dt < r d ->
       x d' = r d /\ vx d' = vx d * airDrag * -0.35) /\
      (r d <= x d + vx d * airDrag * dt -> width s - r d < x d + vx d * airDrag * dt ->
       x d' = width s - r d /\ vx d' = vx d * airDrag * -0.35)).
Proof.
  assert (H1 : forall now deltaTime s k d',
             In d' (droplets (fst (update M now deltaTime (s, k)))) ->
             0 <= r d' <= width s -> 0 <= x d' <= width s).
  { intros now deltaTime s k d' Hin Hr.
    rewrite update_droplets_final in Hin. unfold update_droplets in Hin.
    pose proof (update_emit_width M now (clamp_dt deltaTime) s k) as Hw.
    revert Hin Hw.
    generalize (update_drain (clamp_dt deltaTime)
                  (fst (update_emit M (clamp_dt deltaTime) (update_stream M now s, k)))).
    intros s3 Hin Hw.
    destruct (droplet_loop_kept_props (clamp_dt deltaTime) (width s) (droplets s3) s3 Hw)
      as [_ H].
    destruct (droplet_loop (clamp_dt deltaTime) (droplets s3) s3) as [s' kept].
    cbn [snd] in H. cbn [droplets set_droplets] in Hin.
    rewrite Forall_forall in H. apply list_elem_of_In in Hin.
    exact (proj1 (H d' Hin) Hr). }
  split; [exact H1 |]. split.
  - intros now deltaTime s k d' Hreach Hwide Hin.
    apply (H1 now deltaTime s k d' Hin).
    pose proof (reachable_vols_ok M _ (reach_update M now deltaTime k s Hreach)) as Hok.
    unfold vols_ok in Hok. rewrite Forall_forall in Hok.
    destruct (Hok d' (proj2 (list_elem_of_In _ _) Hin)) as [_ [Hr1 Hr2]]. lra.
  - intros dt d s s' d' E.
    destruct (step_droplet_reflects dt d s s' d' E) as (Ha & Hb & _). split; assumption.
Qed.

(** C7 at the first droplet of a timer in a 500 x 300 window. *)
Lemma boundary_reflection_witness :
  0 <= x (nth 0 (droplets (fst (update demoHost 0 0.016
            (setEmission 2500 (new_WaterSimulation 500 300), 0%nat)))) (mkDroplet 0 0 0 0 0 0 0 0))
    <= width (setEmission 2500 (new_WaterSimulation 500 300)).
Proof.
  apply (proj1 (boundary_reflection demoHost) 0 0.016 _ 0%nat).
  - vm_compute. left. reflexivity.
  - vm_compute. split; discriminate.
Defined.

(** ** Drain completion (C3) *)

(** When the water stands above the scene, the volume exceeds
    [width * height], which is not negative. *)
Lemma above_scene (s : Sim) :
  0 <= height s -> height s - getWaterHeight s < 0 ->
  0 <= width s * height s /\ width s * height s < waterVolume s.
Proof.
  intros Hh Hb. unfold getWaterHeight in Hb.
  destruct (Qle_bool (width s) 0) eqn:Ew; [lra |].
  apply Qle_bool_false in Ew.
  pose proof (Qmin_glb_r (js_or (targetFillHeight s) (height s)) (waterVolume s / width s))
    as Hm.
  assert (Hd : height s < waterVolume s / width s) by lra.
  assert (Hv : waterVolume s == (waterVolume s / width s) * width s).
  { field. lra. }
  split; [nra |]. rewrite Hv. nra.
Qed.

(** One [update] of a draining simulation with no droplet in flight. *)
Lemma update_draining (M : Host) (now deltaTime : Q) (s : Sim) (k : nat) :
  isDraining s = true -> whirlpoolActive s = true -> droplets s = [] ->
  0 <= waterVolume s -> 0 <= height s ->
  exists s', update M now deltaTime (s, k) = (s', k) /\
    droplets s' = [] /\ height s' = height s /\
    0 <= waterVolume s' /\
    waterVolume s' <=
      (if Qltb 0 (drainRate s)
       then Qmax 0 (waterVolume s - drainRate s * clamp_dt deltaTime)
       else waterVolume s) /\
    ((waterVolume s' <= 0 /\ isDraining s' = false /\ whirlpoolActive s' = false) \/
     (0 < waterVolume s' /\ isDraining s' = true /\ whirlpoolActive s' = true /\
      drainRate s' = drainRate s)).
Proof.
  intros Hd Hw Hds Hv Hh.
  destruct (update_chain M now deltaTime s k)
    as (s1 & w2 & s3 & s5 & s6 & s7 & s8 & E1 & E2 & E3 & E5 & E6 & E7 & E8 & E).
  assert (E2' : w2 = (s1, k)).
  { rewrite E2. apply update_emit_draining. rewrite E1. exact Hd. }
  rewrite E2' in E, E3. cbn [fst snd] in E, E3. clear E2 E2' w2.
  set (Vd := if Qltb 0 (drainRate s)
             then Qmax 0 (waterVolume s - drainRate s * clamp_dt deltaTime)
             else waterVolume s).
  assert (F3 : waterVolume s3 = Vd /\ droplets s3 = [] /\ height s3 = height s /\
               width s3 = width s /\ isDraining s3 = true /\ whirlpoolActive s3 = true /\
               drainRate s3 = drainRate s).
  { rewrite E3, E1. unfold update_drain, update_stream. cbv zeta.
    cbn [isDraining drainRate set_streamX]. rewrite Hd. cbn [andb]. subst Vd.
    destruct (Qltb 0 (drainRate s)); cbn; repeat split; assumption. }
  destruct F3 as (V3 & D3 & H3 & W3 & I3 & A3 & R3).
  assert (Vd0 : 0 <= Vd).
  { subst Vd. destruct (Qltb 0 (drainRate s)); [apply Qmax_lub_l | exact Hv]. }
  assert (F5 : s5 = set_droplets [] s3).
  { rewrite E5. unfold update_droplets. rewrite D3. reflexivity. }
  assert (F6 : tank s6 = tank s3 /\ droplets s6 = []).
  { rewrite E6. destruct (tank_update_whirlpool M (clamp_dt deltaTime) s5) as [T D].
    rewrite T, D, F5. split; reflexivity. }
  destruct F6 as [T6 D6].
  assert (F7 : droplets s7 = [] /\ height s7 = height s /\ isDraining s7 = true /\
               whirlpoolActive s7 = true /\ drainRate s7 = drainRate s /\
               0 <= waterVolume s7 <= Vd).
  { unfold tank in T6. injection T6 as T6v _ _ T6w T6h T6i T6a T6r.
    rewrite E7. unfold update_ceiling, getBaseSurfaceY.
    destruct (Qltb (height s3 - getWaterHeight s3) 0) eqn:Eb.
    - apply Qltb_true in Eb.
      destruct (above_scene s3) as [A1 A2]; [rewrite H3; exact Hh | exact Eb |].
      cbn. rewrite D6, T6w, T6h, T6i, T6a, T6r, H3, I3, A3, R3.
      rewrite H3, V3 in *. repeat split; lra.
    - rewrite D6, T6v, T6h, T6i, T6a, T6r, H3, I3, A3, R3, V3. repeat split; lra. }
  destruct F7 as (D7 & H7 & I7 & A7 & R7 & V7).
  assert (F8 : droplets s8 = [] /\ height s8 = height s /\ isDraining s8 = true /\
               whirlpoolActive s8 = true /\ drainRate s8 = drainRate s /\
               waterVolume s8 = waterVolume s7).
  { rewrite E8. destruct (tank_stepSurface M (clamp_dt deltaTime) s7) as [T D].
    unfold tank in T. injection T as -> _ _ _ -> -> -> ->. rewrite D.
    repeat split; assumption. }
  destruct F8 as (D8 & H8 & I8 & A8 & R8 & V8).
  exists (update_autostop s8). split; [exact E |].
  unfold update_autostop. rewrite I8, D8. cbn [andb length Nat.eqb].
  destruct (Qle_bool (waterVolume s8) 0) eqn:E0; cbn [andb].
  - apply Qle_bool_iff in E0. cbn. rewrite V8 in *.
    split; [exact D8 |]. split; [exact H8 |]. split; [lra |]. split; [lra |].
    left. repeat split. exact E0.
  - apply Qle_bool_false in E0. rewrite V8 in *.
    split; [exact D8 |]. split; [exact H8 |]. split; [lra |]. split; [lra |].
    right. repeat split; assumption.
Qed.

Lemma droplet_loop_bounds (dt : Q) (ds : list Droplet) (s : Sim) :
  Forall (fun d => 0 <= vol d) ds ->
  0 <= targetVolume s -> 0 <= waterVolume s ->
  0 <= waterVolume (fst (droplet_loop dt ds s)) /\
  targetVolume (fst (droplet_loop dt ds s)) = targetVolume s /\
  (0 < targetVolume s -> waterVolume s <= targetVolume s ->
   waterVolume (fst (droplet_loop dt ds s)) <= targetVolume s).
Proof.
  intros Hds Htv Hv. induction Hds as [| d rest Hd _ IH]; simpl.
  - split; [exact Hv | split; [reflexivity | intros _ H; exact H]].
  - destruct (droplet_loop dt rest s) as [s1 rest']. cbn [fst] in IH.
    destruct IH as (IH1 & IH2 & IH3).
    destruct (step_droplet_cases dt d s1) as [(e & st & E) | [E | (d' & E & _)]];
      rewrite E; cbn [fst]; try (split; [exact IH1 | split; [exact IH2 | exact IH3]]).
    change (waterVolume (addRippleImpulse e st ?t)) with (waterVolume t).
    change (targetVolume (addRippleImpulse e st ?t)) with (targetVolume t).
    cbn [waterVolume targetVolume set_waterVolume]. rewrite IH2.
    unfold min_or_Infinity.
    destruct (Qeq_bool (targetVolume s) 0) eqn:E0.
    + apply Qeq_bool_iff in E0. split; [lra | split; [reflexivity | intros; lra]].
    + split; [apply Q.min_glb; lra |]. split; [reflexivity |].
      intros _ _. apply Qmin_glb_l.
Qed.

(** One [update] keeps the volume at or above 0 and, under a positive
    target, within the target. *)
Lemma update_volume_bounds (M : Host) (now deltaTime : Q) (s : Sim) (k : nat) :
  vols_ok s ->
  0 <= height s -> 0 <= waterVolume s -> 0 <= targetVolume s ->
  0 <= waterVolume (fst (update M now deltaTime (s, k))) /\
  (0 < targetVolume s -> waterVolume s <= targetVolume s ->
   waterVolume (fst (update M now deltaTime (s, k))) <= targetVolume s).
Proof.
  intros Hok Hh Hv Htv.
  pose proof (clamp_dt_range deltaTime) as Hc.
  destruct (update_chain M now deltaTime s k)
    as (s1 & w2 & s3 & s5 & s6 & s7 & s8 & E1 & E2 & E3 & E5 & E6 & E7 & E8 & E).
  rewrite E. cbn [fst]. rewrite (proj1 (update_autostop_keeps s8)).
  assert (T2 : tank (fst w2) = tank s).
  { rewrite E2, tank_update_emit, E1. reflexivity. }
  assert (V2 : vols_ok (fst w2)).
  { rewrite E2. apply update_emit_vols_ok. rewrite E1. exact Hok. }
  unfold tank in T2. injection T2 as T2v T2f T2t T2w T2h T2i T2a T2r.
  assert (F3 : 0 <= waterVolume s3 /\ waterVolume s3 <= Qmax 0 (waterVolume s) /\
               targetVolume s3 = targetVolume s /\ height s3 = height s /\
               droplets s3 = droplets (fst w2)).
  { rewrite E3. unfold update_drain.
    destruct (isDraining (fst w2) && Qltb 0 (drainRate (fst w2))) eqn:Ed.
    - apply andb_prop in Ed. destruct Ed as [_ Ed]. apply Qltb_true in Ed.
      cbn. rewrite T2v, T2t, T2h.
      split; [apply Qmax_lub_l |]. split; [| repeat split].
      apply Q.max_lub; [apply Qmax_lub_l |].
      eapply Qle_trans; [| apply Q.le_max_r]. nra.
    - rewrite T2v, T2t, T2h. split; [exact Hv |]. split; [apply Q.le_max_r | repeat split]. }
  destruct F3 as (V3a & V3b & T3 & H3 & D3).
  assert (V3c : waterVolume s3 <= waterVolume s).
  { destruct (Qmax_cases 0 (waterVolume s)) as [[Em _] | [Em _]]; rewrite Em in V3b; lra. }
  assert (F5 : 0 <= waterVolume s5 /\
               (0 < targetVolume s -> waterVolume s <= targetVolume s ->
                waterVolume s5 <= targetVolume s)).
  { rewrite E5. unfold update_droplets.
    assert (V2' : Forall (fun d => 0 <= vol d) (droplets s3)).
    { rewrite D3. eapply Forall_impl; [exact V2 |]. intros d Hd. exact (proj1 Hd). }
    destruct (droplet_loop_bounds (clamp_dt deltaTime) (droplets s3) s3 V2')
      as (B1 & B2 & B3); [rewrite T3; exact Htv | exact V3a |].
    destruct (droplet_loop (clamp_dt deltaTime) (droplets s3) s3) as [s' kept].
    cbn [fst] in B1, B2, B3. cbn [waterVolume set_droplets].
    split; [exact B1 |]. intros Hp Hle. rewrite T3 in B3. apply B3; [exact Hp | lra]. }
  destruct F5 as [V5a V5b].
  assert (T6 : waterVolume s6 = waterVolume s5).
  { rewrite E6. pose proof (proj1 (tank_update_whirlpool M (clamp_dt deltaTime) s5)) as T.
    unfold tank in T. now injection T. }
  assert (F7 : 0 <= waterVolume s7 /\
               (0 < targetVolume s -> waterVolume s <= targetVolume s ->
                waterVolume s7 <= targetVolume s)).
  { rewrite E7. unfold update_ceiling, getBaseSurfaceY.
    destruct (Qltb (height s3 - getWaterHeight s3) 0) eqn:Eb.
    - apply Qltb_true in Eb.
      destruct (above_scene s3) as [A1 A2]; [rewrite H3; exact Hh | exact Eb |].
      assert (W6 : width s6 = width s3 /\ height s6 = height s3).
      { pose proof (static_update_droplets s3 (clamp_dt deltaTime) s3 (same_static_refl s3))
          as S5. rewrite <- E5 in S5.
        pose proof (proj1 (tank_update_whirlpool M (clamp_dt deltaTime) s5)) as T.
        rewrite <- E6 in T. unfold tank in T. injection T as _ _ _ -> -> _.
        destruct S5 as (-> & -> & _). split; reflexivity. }
      destruct W6 as [W6 H6]. cbn [waterVolume set_waterVolume]. rewrite W6, H6.
      split; [exact A1 |]. intros Hp Hle. lra.
    - rewrite T6. split; [exact V5a | exact V5b]. }
  rewrite E8. pose proof (proj1 (tank_stepSurface M (clamp_dt deltaTime) s7)) as T.
  unfold tank in T. injection T as -> _. exact F7.
Qed.











(** ** Determinism (C4) *)

(** C4, as stated, fails: [update] reads [performance.now()] and
    [Math.random()].  From the same state and with the same [dt], two
    clock readings give two stream positions (evaluated with the sine of
    [demoHost]), and two sequences of random draws give droplets of two
    volumes (a droplet's volume goes through no host function but
    [Math.random()]). *)
Lemma update_depends_on_clock_and_draws :
  ~ streamX (fst (update demoHost 0 0.004 (running, 0%nat)))
    == streamX (fst (update demoHost 250 0.004 (running, 0%nat))) /\
  map vol (droplets (fst (update demoHost 0 0.004 (running, 0%nat))))
    <> map vol (droplets (fst (update otherDraws 0 0.004 (running, 0%nat)))) /\
  update demoHost 0 0.004 (running, 0%nat) <> update demoHost 250 0.004 (running, 0%nat) /\
  update demoHost 0 0.004 (running, 0%nat) <> update otherDraws 0 0.004 (running, 0%nat).
Proof.
  assert (H1 : ~ streamX (fst (update demoHost 0 0.004 (running, 0%nat)))
                 == streamX (fst (update demoHost 250 0.004 (running, 0%nat)))).
  { intros H. vm_compute in H. discriminate H. }
  assert (H2 : map vol (droplets (fst (update demoHost 0 0.004 (running, 0%nat))))
               <> map vol (droplets (fst (update otherDraws 0 0.004 (running, 0%nat))))).
  { intros H. vm_compute in H. discriminate H. }
  split; [exact H1 |]. split; [exact H2 |]. split.
  - intros E. apply H1. rewrite E. reflexivity.
  - intros E. apply H2. rewrite E. reflexivity.
Qed.

Lemma for_range_ext {St : Type} (body body' : Z -> St -> St) :
  (forall i s, body i s = body' i s) ->
  forall n i s, for_range i n body s = for_range i n body' s.
Proof.
  intros Hb n. induction n as [| n IH]; intros i s; simpl; [reflexivity |].
  now rewrite Hb, IH.
Qed.

Lemma same_but_streamX_inv (s s' : Sim) :
  same_but_streamX s s' -> s' = set_streamX (streamX s') s.
Proof.
  unfold same_but_streamX. destruct s, s'. sim_cbv. intros E.
  injection E. intros; subst. reflexivity.
Qed.

Lemma same_but_streamX_set (e e' : Q) (s : Sim) :
  same_but_streamX (set_streamX e s) (set_streamX e' s).
Proof. reflexivity. Qed.

(** A block commutes with an assignment of [streamX]: by evaluation of
    the field assignments on a state given field by field. *)
Ltac blind := intros; match goal with s : Sim |- _ => destruct s end;
              sim_cbv; destruct_ifs; reflexivity.

Lemma set_h_blind (a : list Q) (e : Q) (s : Sim) :
  set_h a (set_streamX e s) = set_streamX e (set_h a s).
Proof. blind. Qed.

Lemma set_droplets_blind (a : list Droplet) (e : Q) (s : Sim) :
  set_droplets a (set_streamX e s) = set_streamX e (set_droplets a s).
Proof. blind. Qed.

Lemma for_range_blind (body : Z -> Sim -> Sim) :
  (forall i e s, body i (set_streamX e s) = set_streamX e (body i s)) ->
  forall n i e s, for_range i n body (set_streamX e s) = set_streamX e (for_range i n body s).
Proof.
  intros Hb n. induction n as [| n IH]; intros i e s; simpl; [reflexivity |].
  now rewrite Hb, IH.
Qed.

Lemma update_drain_blind (dt e : Q) (s : Sim) :
  update_drain dt (set_streamX e s) = set_streamX e (update_drain dt s).
Proof. unfold update_drain. blind. Qed.

Lemma step_droplet_blind (dt : Q) (d : Droplet) (e : Q) (s : Sim) :
  step_droplet dt d (set_streamX e s)
  = (set_streamX e (fst (step_droplet dt d s)), snd (step_droplet dt d s)).
Proof.
  destruct s.
  unfold step_droplet, getSurfaceY, getBaseSurfaceY, getWaterHeight, sampleSurfaceOffset,
    addRippleImpulse, xToIndex.
  sim_cbv. destruct_ifs; reflexivity.
Qed.

Lemma droplet_loop_blind (dt : Q) (ds : list Droplet) (e : Q) (s : Sim) :
  droplet_loop dt ds (set_streamX e s)
  = (set_streamX e (fst (droplet_loop dt ds s)), snd (droplet_loop dt ds s)).
Proof.
  induction ds as [| d rest IH]; simpl; [reflexivity |].
  rewrite IH. destruct (droplet_loop dt rest s) as [s1 rest']. cbn [fst snd].
  rewrite step_droplet_blind. destruct (step_droplet dt d s1) as [s2 od]. reflexivity.
Qed.

Lemma update_droplets_blind (dt e : Q) (s : Sim) :
  update_droplets dt (set_streamX e s) = set_streamX e (update_droplets dt s).
Proof.
  unfold update_droplets. cbn [droplets set_streamX]. rewrite droplet_loop_blind.
  destruct (droplet_loop dt (droplets s) s) as [s' kept]. cbn [fst snd].
  apply set_droplets_blind.
Qed.

Lemma sink_at_blind (M : Host) (idx : Z) (sink dt : Q) (k : Z) (e : Q) (s : Sim) :
  sink_at M idx sink dt k (set_streamX e s) = set_streamX e (sink_at M idx sink dt k s).
Proof. unfold sink_at. blind. Qed.

Lemma update_whirlpool_blind (M : Host) (dt e : Q) (s : Sim) :
  update_whirlpool M dt (set_streamX e s) = set_streamX e (update_whirlpool M dt s).
Proof.
  unfold update_whirlpool. cbn [whirlpoolActive set_streamX].
  destruct (whirlpoolActive s); [| reflexivity].
  unfold whirlpool_sink, for_upto. cbv zeta.
  change (xToIndex (set_streamX e s) (fst (whirlpoolCenter (set_streamX e s))))
    with (xToIndex s (fst (whirlpoolCenter s))).
  cbn [whirlpoolStrength set_streamX].
  apply for_range_blind. intros i e' s'. apply sink_at_blind.
Qed.

Lemma update_ceiling_blind (b e : Q) (s : Sim) :
  update_ceiling b (set_streamX e s) = set_streamX e (update_ceiling b s).
Proof. unfold update_ceiling. blind. Qed.

Lemma update_autostop_blind (e : Q) (s : Sim) :
  update_autostop (set_streamX e s) = set_streamX e (update_autostop s).
Proof. unfold update_autostop. blind. Qed.

Lemma wave_at_blind (dx c2 dt : Q) (i : Z) (e : Q) (s : Sim) :
  wave_at dx c2 dt i (set_streamX e s) = set_streamX e (wave_at dx c2 dt i s).
Proof. unfold wave_at. blind. Qed.

Lemma damp_at_blind (damp dt : Q) (i : Z) (e : Q) (s : Sim) :
  damp_at damp dt i (set_streamX e s) = set_streamX e (damp_at damp dt i s).
Proof. unfold damp_at. blind. Qed.

Lemma stepSurface_blind (M : Host) (dt e : Q) (s : Sim) :
  stepSurface M dt (set_streamX e s) = set_streamX e (stepSurface M dt s).
Proof.
  unfold stepSurface. cbn [surfaceN width set_streamX].
  destruct (surfaceN s <=? 2)%Z; [reflexivity |]. cbv zeta.
  unfold for_upto.
  rewrite (for_range_blind _ (fun i e' s' => wave_at_blind _ _ _ i e' s')).
  cbn [surfaceN set_streamX].
  rewrite (for_range_blind _ (fun i e' s' => damp_at_blind _ _ i e' s')).
  cbn [surfaceN h set_streamX].
  destruct (Qltb 0 surfaceViscosity); [| reflexivity].
  apply set_h_blind.
Qed.

Lemma set_streamX_same (s : Sim) : set_streamX (streamX s) s = s.
Proof. destruct s. reflexivity. Qed.

Lemma startDraining_blind (e : Q) (s : Sim) :
  startDraining (set_streamX e s) = set_streamX e (startDraining s).
Proof. unfold startDraining. blind. Qed.

Lemma same_but_streamX_flags (s s' : Sim) :
  same_but_streamX s s' ->
  isDraining s' = isDraining s /\ whirlpoolActive s' = whirlpoolActive s.
Proof.
  intros E. rewrite (same_but_streamX_inv s s' E). split; reflexivity.
Qed.

Lemma stepSurface_same_exp (M M' : Host) (dt : Q) (s : Sim) :
  same_exp M M' -> stepSurface M dt s = stepSurface M' dt s.
Proof. intros Hexp. unfold stepSurface. now rewrite Hexp. Qed.

Lemma update_whirlpool_same_exp (M M' : Host) (dt : Q) (s : Sim) :
  same_exp M M' -> update_whirlpool M dt s = update_whirlpool M' dt s.
Proof.
  intros Hexp. unfold update_whirlpool, whirlpool_sink, for_upto.
  destruct (whirlpoolActive s); [| reflexivity].
  apply for_range_ext. intros i s'. unfold sink_at. now rewrite Hexp.
Qed.

(** When no droplet is to be spawned, the emission block at most adds
    to the accumulator; it reads neither the stream position nor a random
    draw. *)
Lemma update_emit_quiet (deltaTime : Q) (s : Sim) :
  no_spawn deltaTime s ->
  exists q, forall M e k,
    update_emit M (clamp_dt deltaTime) (set_streamX e s, k) = (set_streamX e q, k).
Proof.
  intros Hq. unfold update_emit. cbv zeta.
  cbn [fst snd isDraining whirlpoolActive volumePerSecond dropSpawnAccumulator set_streamX].
  destruct (negb (isDraining s) && negb (whirlpoolActive s) && Qltb 0 (volumePerSecond s))
    eqn:G.
  - apply andb_prop in G. destruct G as [G G3]. apply andb_prop in G. destruct G as [G1 G2].
    apply negb_true_iff in G1, G2. apply Qltb_true in G3.
    assert (Hacc : dropSpawnAccumulator s + dropsPerSecond * clamp_dt deltaTime < 1).
    { destruct Hq as [H | [H | [H | H]]]; [congruence | congruence | lra | exact H]. }
    exists (set_dropSpawnAccumulator
              (dropSpawnAccumulator s + dropsPerSecond * clamp_dt deltaTime) s).
    intros M e k. cbn [dropSpawnAccumulator set_dropSpawnAccumulator].
    assert (F : emit_fuel (dropSpawnAccumulator s + dropsPerSecond * clamp_dt deltaTime)
                = 0%nat).
    { unfold emit_fuel.
      pose proof (Qfloor_le (dropSpawnAccumulator s + dropsPerSecond * clamp_dt deltaTime))
        as Hf.
      assert (H1 : inject_Z (Qfloor (dropSpawnAccumulator s
                                     + dropsPerSecond * clamp_dt deltaTime)) < inject_Z 1).
      { change (inject_Z 1) with 1. lra. }
      rewrite <- Zlt_Qlt in H1. lia. }
    rewrite F. reflexivity.
  - exists s. intros M e k. reflexivity.
Qed.

(** One [update] in which no droplet is spawned: the state it returns
    is, up to [streamX], the same for every clock reading, every stream
    position it starts from and every host with the same [Math.exp]; it
    makes no random draw. *)
Lemma update_quiet (M : Host) (deltaTime : Q) (s : Sim) :
  no_spawn deltaTime s ->
  exists r, forall M', same_exp M M' -> forall now e k,
    exists e', update M' now deltaTime (set_streamX e s, k) = (set_streamX e' r, k).
Proof.
  intros Hq. destruct (update_emit_quiet deltaTime s Hq) as [q Eq].
  exists (update_autostop
            (stepSurface M (clamp_dt deltaTime)
               (update_ceiling (getBaseSurfaceY (update_drain (clamp_dt deltaTime) q))
                  (update_whirlpool M (clamp_dt deltaTime)
                     (update_droplets (clamp_dt deltaTime)
                        (update_drain (clamp_dt deltaTime) q)))))).
  intros M' Hexp now e k.
  exists (streamX (update_stream M' now s)).
  unfold update, update_with_dt. cbv zeta. cbn [fst snd].
  change (Qmax 0 (Qmin 0.05 deltaTime)) with (clamp_dt deltaTime).
  change (update_stream M' now (set_streamX e s))
    with (set_streamX (streamX (update_stream M' now s)) s).
  rewrite Eq. cbn [fst snd].
  rewrite update_drain_blind.
  change (getBaseSurfaceY (set_streamX (streamX (update_stream M' now s))
                             (update_drain (clamp_dt deltaTime) q)))
    with (getBaseSurfaceY (update_drain (clamp_dt deltaTime) q)).
  rewrite update_droplets_blind, update_whirlpool_blind, update_ceiling_blind,
    stepSurface_blind, update_autostop_blind.
  rewrite <- (update_whirlpool_same_exp M M' _ _ Hexp).
  rewrite <- (stepSurface_same_exp M M' _ _ Hexp).
  reflexivity.
Qed.

Lemma update_no_spawn_blind (M M' : Host) (now now' deltaTime : Q) (s s' : Sim) (k k' : nat) :
  same_exp M M' -> same_but_streamX s s' -> no_spawn deltaTime s ->
  same_but_streamX (fst (update M now deltaTime (s, k)))
                   (fst (update M' now' deltaTime (s', k'))) /\
  snd (update M now deltaTime (s, k)) = k /\
  snd (update M' now' deltaTime (s', k')) = k'.
Proof.
  intros Hexp Hs Hq. destruct (update_quiet M deltaTime s Hq) as [r Hr].
  destruct (Hr M (fun a => eq_refl) now (streamX s) k) as [e1 E1].
  destruct (Hr M' Hexp now' (streamX s') k') as [e2 E2].
  rewrite set_streamX_same in E1. rewrite <- (same_but_streamX_inv s s' Hs) in E2.
  rewrite E1, E2. cbn [fst snd]. repeat split.
Qed.

(** The drain loop under two clocks and two hosts. *)
Lemma drainAnimation_blind (M M' : Host) (frames : list (Q * Q)) :
  same_exp M M' ->
  forall (frames' : list (Q * Q)) (s s' : Sim) (k k' : nat),
    map fst frames = map fst frames' -> same_but_streamX s s' ->
    same_but_streamX (fst (drainAnimation M frames (s, k)))
                     (fst (drainAnimation M' frames' (s', k'))) /\
    snd (drainAnimation M frames (s, k)) = k /\
    snd (drainAnimation M' frames' (s', k')) = k'.
Proof.
  intros Hexp. induction frames as [| [dt now] rest IH];
    intros [| [dt' now'] rest'] s s' k k' Hdt Hs; try discriminate Hdt.
  - cbn. repeat split. exact Hs.
  - cbn [map fst] in Hdt. injection Hdt as <- Hrest.
    cbn [drainAnimation fst].
    destruct (same_but_streamX_flags s s' Hs) as [-> ->].
    destruct (isDraining s || whirlpoolActive s) eqn:Ef; [| repeat split; exact Hs].
    assert (Hq : no_spawn dt s).
    { apply orb_prop in Ef. destruct Ef as [E | E]; [left | right; left]; exact E. }
    destruct (update_no_spawn_blind M M' now now' dt s s' k k' Hexp Hs Hq)
      as (H1 & H2 & H3).
    destruct (update M now dt (s, k)) as [s1 k1].
    destruct (update M' now' dt (s', k')) as [s1' k1'].
    cbn [fst snd] in H1, H2, H3. subst k1 k1'.
    apply IH; assumption.
Qed.

(** C4, amended: the clock reading and the random draws reach the
    state through the stream position and the spawned droplets only.  For
    an [update] in which no droplet is spawned (a drain flag is set, the
    emission rate is not positive, or the accumulator stays below 1), from
    two states that differ in [streamX] at most and with the same [dt],
    the two states returned differ in [streamX] at most, whatever the two
    clock readings and the values of [Math.random()], [Math.sin],
    [Math.sqrt] and [Math.PI] are, and no random number is drawn.  So the
    drain loop of [complete()] is, up to [streamX], a function of the state
    and of the sequence of [dt] alone. *)
Theorem clock_and_draws_reach_spawns_only (M M' : Host) :
  same_exp M M' ->
  (forall (now now' deltaTime : Q) (s s' : Sim) (k k' : nat),
     same_but_streamX s s' -> no_spawn deltaTime s ->
     same_but_streamX (fst (update M now deltaTime (s, k)))
                      (fst (update M' now' deltaTime (s', k'))) /\
     snd (update M now deltaTime (s, k)) = k /\
     snd (update M' now' deltaTime (s', k')) = k') /\
  (forall (frames frames' : list (Q * Q)) (s s' : Sim) (k k' : nat),
     map fst frames = map fst frames' -> same_but_streamX s s' ->
     same_but_streamX (fst (complete M frames (s, k)))
                      (fst (complete M' frames' (s', k'))) /\
     snd (complete M frames (s, k)) = k /\
     snd (complete M' frames' (s', k')) = k').
Proof.
  intros Hexp. split.
  - intros now now' deltaTime s s' k k'. now apply update_no_spawn_blind.
  - intros frames frames' s s' k k' Hdt Hs. unfold complete. cbn [fst snd].
    apply drainAnimation_blind; [exact Hexp | exact Hdt |].
    rewrite (same_but_streamX_inv s s' Hs), startDraining_blind.
    reflexivity.
Qed.

(** C4 at one millisecond of [running], where the accumulator stays
    below 1: two clock readings and two streams of random draws. *)
Lemma clock_and_draws_reach_spawns_only_witness :
  same_but_streamX (fst (update demoHost 0 0.001 (running, 0%nat)))
                   (fst (update otherDraws 250 0.001 (running, 7%nat))) /\
  snd (update otherDraws 250 0.001 (running, 7%nat)) = 7%nat.
Proof.
  refine ((fun H => conj (proj1 H) (proj2 (proj2 H)))
            (proj1 (clock_and_draws_reach_spawns_only demoHost otherDraws _)
               0 250 0.001 running running 0%nat 7%nat _ _)).
  - intros a. reflexivity.
  - reflexivity.
  - right. right. right. vm_compute. reflexivity.
Defined.

(** ** One step of the heightfield (C8) *)

Lemma aread_aset_eq (a : list Q) (i : Z) (e : Q) :
  (0 <= i < Z.of_nat (length a))%Z -> aread (aset a i e) i = e.
Proof.
  intros Hi. unfold aread, aget, aset.
  destruct (i <? 0)%Z eqn:E; [apply Z.ltb_lt in E; lia |].
  rewrite list_lookup_insert_eq; [reflexivity | lia].
Qed.

Lemma aread_aset_ne (a : list Q) (i j : Z) (e : Q) :
  i <> j -> aread (aset a i e) j = aread a j.
Proof.
  intros Hij. unfold aread, aget, aset.
  destruct (i <? 0)%Z eqn:Ei; [reflexivity |].
  destruct (j <? 0)%Z eqn:Ej; [reflexivity |].
  apply Z.ltb_ge in Ei. apply Z.ltb_ge in Ej.
  rewrite list_lookup_insert_ne; [reflexivity | lia].
Qed.

Ltac zbool :=
  repeat match goal with
         | |- context [(?a <=? ?b)%Z] => destruct (Z.leb_spec a b)
         | |- context [(?a <? ?b)%Z] => destruct (Z.ltb_spec a b)
         end;
  cbn [andb orb]; try reflexivity; try lia.

Lemma in_span_first (lo : Z) (n : nat) : in_span lo (S n) lo = true.
Proof. unfold in_span. zbool. Qed.

Lemma in_span_first_not_rest (lo : Z) (n : nat) : in_span (lo + 1) n lo = false.
Proof. unfold in_span. zbool. Qed.

Lemma in_span_rest (lo : Z) (n : nat) (j : Z) :
  j <> lo -> in_span lo (S n) j = in_span (lo + 1) n j.
Proof.
  intros Hj. unfold in_span. zbool.
Qed.

(** The wave-equation loop leaves [h] alone and adds the curvature term
    to the velocities of its span. *)
Lemma wave_loop (dx c2 dt : Q) (n : nat) :
  forall (lo : Z) (s : Sim),
    (0 <= lo)%Z -> (lo + Z.of_nat n <= Z.of_nat (length (v s)))%Z ->
    h (for_range lo n (wave_at dx c2 dt) s) = h s /\
    length (v (for_range lo n (wave_at dx c2 dt) s)) = length (v s) /\
    forall j, aread (v (for_range lo n (wave_at dx c2 dt) s)) j =
              if in_span lo n j
              then aread (v s) j + c2 * laplacian (h s) dx j * dt
              else aread (v s) j.
Proof.
  induction n as [| n IH]; intros lo s Hlo Hhi.
  - cbn [for_range]. split; [reflexivity |]. split; [reflexivity |].
    intros j. unfold in_span. zbool.
  - cbn [for_range].
    destruct (IH (lo + 1)%Z (wave_at dx c2 dt lo s)) as (Hh & Hl & Hv).
    { lia. }
    { cbn [v wave_at set_v]. rewrite aset_length. lia. }
    cbn [h v wave_at set_v] in Hh, Hl, Hv. rewrite aset_length in Hl.
    split; [exact Hh |]. split; [exact Hl |].
    intros j. rewrite Hv. destruct (Z.eq_dec j lo) as [-> | Hj].
    + rewrite in_span_first_not_rest, in_span_first.
      rewrite aread_aset_eq by lia. reflexivity.
    + rewrite (in_span_rest lo n j Hj), aread_aset_ne by congruence. reflexivity.
Qed.

(** The damping loop multiplies the velocities of its span by [damp] and
    adds the damped velocity times [dt] to the heights. *)
Lemma damp_loop (damp dt : Q) (n : nat) :
  forall (lo : Z) (s : Sim),
    (0 <= lo)%Z -> (lo + Z.of_nat n <= Z.of_nat (length (v s)))%Z ->
    (lo + Z.of_nat n <= Z.of_nat (length (h s)))%Z ->
    length (v (for_range lo n (damp_at damp dt) s)) = length (v s) /\
    length (h (for_range lo n (damp_at damp dt) s)) = length (h s) /\
    forall j,
      aread (v (for_range lo n (damp_at damp dt) s)) j =
        (if in_span lo n j then aread (v s) j * damp else aread (v s) j) /\
      aread (h (for_range lo n (damp_at damp dt) s)) j =
        (if in_span lo n j then aread (h s) j + aread (v s) j * damp * dt else aread (h s) j).
Proof.
  induction n as [| n IH]; intros lo s Hlo Hv Hh.
  - cbn [for_range]. split; [reflexivity |]. split; [reflexivity |].
    intros j. unfold in_span. zbool; split; reflexivity.
  - cbn [for_range].
    destruct (IH (lo + 1)%Z (damp_at damp dt lo s)) as (Hlv & Hlh & Hj).
    { lia. }
    { cbn [v h damp_at set_v set_h]. rewrite aset_length. lia. }
    { cbn [v h damp_at set_v set_h]. rewrite aset_length. lia. }
    cbn [h v damp_at set_v set_h] in Hlv, Hlh, Hj. rewrite aset_length in Hlv, Hlh.
    split; [exact Hlv |]. split; [exact Hlh |].
    intros j. destruct (Hj j) as [Hjv Hjh]. rewrite Hjv, Hjh.
    destruct (Z.eq_dec j lo) as [-> | Hne].
    + rewrite in_span_first_not_rest, in_span_first.
      rewrite !aread_aset_eq by lia. split; reflexivity.
    + rewrite (in_span_rest lo n j Hne), !aread_aset_ne by congruence.
      split; reflexivity.
Qed.

(** The smoothing loop writes the weighted average of [hs] into the
    entries of its span of [tmp]. *)
Lemma blur_loop (hs : list Q) (a : Q) (n : nat) :
  forall (lo : Z) (tmp : list Q),
    (0 <= lo)%Z -> (lo + Z.of_nat n <= Z.of_nat (length tmp))%Z ->
    length (for_range lo n (blur_at hs a) tmp) = length tmp /\
    forall j, aread (for_range lo n (blur_at hs a) tmp) j =
              if in_span lo n j
              then aread hs j * (1 - a) + (aread hs (j - 1) + aread hs (j + 1)) * (a * 0.5)
              else aread tmp j.
Proof.
  induction n as [| n IH]; intros lo tmp Hlo Hhi.
  - cbn [for_range]. split; [reflexivity |].
    intros j. unfold in_span. zbool.
  - cbn [for_range].
    destruct (IH (lo + 1)%Z (blur_at hs a lo tmp)) as (Hl & Hj).
    { lia. }
    { rewrite blur_at_length. lia. }
    rewrite blur_at_length in Hl. split; [exact Hl |].
    intros j. rewrite Hj. unfold blur_at. destruct (Z.eq_dec j lo) as [-> | Hne].
    + rewrite in_span_first_not_rest, in_span_first.
      rewrite aread_aset_eq by lia. reflexivity.
    + rewrite (in_span_rest lo n j Hne), aread_aset_ne by congruence. reflexivity.
Qed.

Lemma wave_loop_surfaceN (dx c2 dt : Q) (n : nat) (lo : Z) (s : Sim) :
  surfaceN (for_range lo n (wave_at dx c2 dt) s) = surfaceN s.
Proof.
  apply (for_range_ind (fun s' => surfaceN s' = surfaceN s)); [| reflexivity].
  intros i s' H'. exact H'.
Qed.

Lemma damp_loop_surfaceN (damp dt : Q) (n : nat) (lo : Z) (s : Sim) :
  surfaceN (for_range lo n (damp_at damp dt) s) = surfaceN s.
Proof.
  apply (for_range_ind (fun s' => surfaceN s' = surfaceN s)); [| reflexivity].
  intros i s' H'. exact H'.
Qed.

Lemma in_span_interior (n j : Z) :
  (2 < n)%Z -> in_span 1 (Z.to_nat (n - 1 - 1)) j = interior n j.
Proof. intros Hn. unfold in_span, interior. zbool. Qed.

Lemma in_span_all (n j : Z) :
  (0 <= j < n)%Z -> in_span 0 (Z.to_nat (n - 0)) j = true.
Proof. intros Hj. unfold in_span. zbool. Qed.

(** [stepSurface] computes the velocities and heights of the
    specification's scheme. *)
Lemma stepSurface_pointwise (M : Host) (dt : Q) (s : Sim) :
  surface_ok s -> (2 < surfaceN s)%Z ->
  forall j, (0 <= j < surfaceN s)%Z ->
    aread (v (stepSurface M dt s)) j = spec_velocity M s dt j /\
    aread (h (stepSurface M dt s)) j = spec_blurred M s dt j.
Proof.
  intros [Hlh Hlv] HN.
  unfold stepSurface.
  destruct (surfaceN s <=? 2)%Z eqn:EN; [apply Z.leb_le in EN; lia | clear EN].
  replace (Qltb 0 surfaceViscosity) with true by reflexivity.
  cbv zeta. unfold for_upto.
  set (dx := width s / inject_Z (surfaceN s - 1)).
  set (c2 := waveSpeed * waveSpeed).
  set (damp := Math_exp M (- waveDamping * dt)).
  set (s1 := for_range 1 (Z.to_nat (surfaceN s - 1 - 1)) (wave_at dx c2 dt) s).
  assert (N1 : surfaceN s1 = surfaceN s) by apply wave_loop_surfaceN.
  destruct (wave_loop dx c2 dt (Z.to_nat (surfaceN s - 1 - 1)) 1 s) as (H1h & H1l & H1v);
    [lia | lia |]. fold s1 in H1h, H1l, H1v.
  rewrite N1.
  set (s2 := for_range 0 (Z.to_nat (surfaceN s - 0)) (damp_at damp dt) s1).
  assert (N2 : surfaceN s2 = surfaceN s).
  { subst s2. rewrite damp_loop_surfaceN. exact N1. }
  destruct (damp_loop damp dt (Z.to_nat (surfaceN s - 0)) 0 s1) as (H2lv & H2lh & H2);
    [lia | rewrite H1l; lia | rewrite H1h; lia |]. fold s2 in H2lv, H2lh, H2.
  rewrite N2.
  assert (Hmid : forall i, (0 <= i < surfaceN s)%Z ->
                   aread (v s2) i = spec_velocity M s dt i /\
                   aread (h s2) i = spec_integrated M s dt i).
  { intros i Hi. destruct (H2 i) as [Hv2 Hh2].
    rewrite (in_span_all (surfaceN s) i Hi) in Hv2, Hh2.
    rewrite H1v, (in_span_interior (surfaceN s) i HN) in Hv2, Hh2.
    rewrite H1h in Hh2. split; [exact Hv2 | exact Hh2]. }
  intros j Hj. cbn [v h set_h]. split; [exact (proj1 (Hmid j Hj)) |].
  set (tmp := replicate (Z.to_nat (surfaceN s)) 0).
  set (tmp1 := aset tmp 0 (aread (h s2) 0)).
  set (tmp2 := aset tmp1 (surfaceN s - 1) (aread (h s2) (surfaceN s - 1))).
  assert (L0 : Z.of_nat (length tmp) = surfaceN s).
  { subst tmp. rewrite length_replicate. lia. }
  assert (L1 : length tmp1 = length tmp) by apply aset_length.
  assert (L2 : length tmp2 = length tmp1) by apply aset_length.
  destruct (blur_loop (h s2) surfaceViscosity (Z.to_nat (surfaceN s - 1 - 1)) 1 tmp2)
    as (_ & Hb); [lia | lia |].
  rewrite Hb, (in_span_interior (surfaceN s) j HN). unfold spec_blurred.
  destruct (interior (surfaceN s) j) eqn:Ei.
  - unfold interior in Ei. apply andb_prop in Ei. destruct Ei as [Ei1 Ei2].
    apply Z.leb_le in Ei1. apply Z.ltb_lt in Ei2.
    rewrite (proj2 (Hmid j Hj)), (proj2 (Hmid (j - 1)%Z ltac:(lia))),
      (proj2 (Hmid (j + 1)%Z ltac:(lia))). reflexivity.
  - rewrite <- (proj2 (Hmid j Hj)).
    destruct (Z.eq_dec j (surfaceN s - 1)%Z) as [-> | Hne].
    + subst tmp2. apply aread_aset_eq. lia.
    + assert (j = 0%Z) as ->.
      { unfold interior in Ei. apply andb_false_iff in Ei.
        destruct Ei as [Ei | Ei]; [apply Z.leb_gt in Ei | apply Z.ltb_ge in Ei]; lia. }
      subst tmp2. rewrite aread_aset_ne by lia. subst tmp1. apply aread_aset_eq. lia.
Qed.

(** C8: for a field of more than two samples whose arrays have length
    [surfaceN], [stepSurface(dt)] leaves at every sample the velocity and
    the height of the scheme: interior velocities get the
    central-difference Laplacian of [h] times [c^2 dt], every velocity is
    multiplied by [exp(-waveDamping dt)], every height is advanced by
    [v dt], and a single blur pass averages interior heights with their
    neighbours.  At the two boundary samples there is no Laplacian term
    and the blur leaves the integrated height as it is. *)
Theorem stepSurface_scheme (M : Host) (dt : Q) (s : Sim) :
  surface_ok s -> (2 < surfaceN s)%Z ->
  (forall j, (0 <= j < surfaceN s)%Z ->
     aread (v (stepSurface M dt s)) j = spec_velocity M s dt j /\
     aread (h (stepSurface M dt s)) j = spec_blurred M s dt j) /\
  (forall j, j = 0%Z \/ j = (surfaceN s - 1)%Z ->
     aread (v (stepSurface M dt s)) j = aread (v s) j * Math_exp M (- waveDamping * dt) /\
     aread (h (stepSurface M dt s)) j =
       aread (h s) j + aread (v s) j * Math_exp M (- waveDamping * dt) * dt).
Proof.
  intros Hok HN. split; [apply stepSurface_pointwise; assumption |].
  intros j Hj.
  assert (Hr : (0 <= j < surfaceN s)%Z) by lia.
  assert (Hi : interior (surfaceN s) j = false).
  { unfold interior. destruct Hj as [-> | ->]; zbool. }
  destruct (stepSurface_pointwise M dt s Hok HN j Hr) as [Hv Hh].
  rewrite Hv, Hh. unfold spec_blurred, spec_integrated, spec_velocity. rewrite Hi.
  split; reflexivity.
Qed.

(** C8 at a newly built field of 166 samples. *)
Lemma stepSurface_scheme_witness :
  aread (v (stepSurface demoHost 0.016 (new_WaterSimulation 500 300))) 80
    = spec_velocity demoHost (new_WaterSimulation 500 300) 0.016 80 /\
  aread (h (stepSurface demoHost 0.016 (new_WaterSimulation 500 300))) 80
    = spec_blurred demoHost (new_WaterSimulation 500 300) 0.016 80.
Proof.
  apply (proj1 (stepSurface_scheme demoHost 0.016 (new_WaterSimulation 500 300)
                  (resize_ok 500 300 fresh) ltac:(vm_compute; reflexivity))).
  vm_compute. split; [discriminate | reflexivity].
Defined.

(** * Further properties of the code *)

(** ** [reset] *)

Lemma fill0_fill0 (a : list Q) : fill0 (fill0 a) = fill0 a.
Proof. unfold fill0. induction a as [| e a IH]; simpl; [reflexivity | now rewrite IH]. Qed.

Lemma fill0_zero (a : list Q) (j : Z) : aread (fill0 a) j = 0.
Proof.
  unfold aread, aget. destruct (j <? 0)%Z; [reflexivity |].
  unfold fill0. generalize (Z.to_nat j). clear j.
  induction a as [| e a IH]; intros [| n]; simpl; try reflexivity. apply IH.
Qed.

(** X1: [reset()] twice in a row gives the state [reset()] gives once.
    That state has no droplet, volume 0, an empty spawn accumulator, the
    drain off, every heightfield sample at 0, and the scene size, the
    target, the emission rate and the sample count it had before. *)
Theorem reset_idempotent (s : Sim) :
  reset (reset s) = reset s /\
  droplets (reset s) = [] /\ waterVolume (reset s) = 0 /\
  dropSpawnAccumulator (reset s) = 0 /\
  isDraining (reset s) = false /\ whirlpoolActive (reset s) = false /\
  whirlpoolStrength (reset s) = 0 /\ drainRate (reset s) = 0 /\
  (forall j, aread (h (reset s)) j = 0 /\ aread (v (reset s)) j = 0) /\
  width (reset s) = width s /\ height (reset s) = height s /\
  targetFillHeight (reset s) = targetFillHeight s /\
  targetVolume (reset s) = targetVolume s /\
  volumePerSecond (reset s) = volumePerSecond s /\
  surfaceN (reset s) = surfaceN s.
Proof.
  split.
  - destruct s. unfold reset. sim_cbv. rewrite 2 fill0_fill0. reflexivity.
  - repeat split; apply fill0_zero.
Qed.

(** ** [xToIndex] *)

(** X2: in a field of at least one sample [xToIndex] returns an index
    of the field for every x, negative or beyond the width included; when
    the arrays have the length [surfaceN], that index is defined in
    [v]. *)
Theorem xToIndex_in_range (s : Sim) (e : Q) :
  (1 <= surfaceN s)%Z ->
  (0 <= xToIndex s e <= surfaceN s - 1)%Z /\
  (surface_ok s -> exists a, aget (v s) (xToIndex s e) = Some a).
Proof.
  intros HN.
  assert (Hr : (0 <= xToIndex s e <= surfaceN s - 1)%Z) by (unfold xToIndex; lia).
  split; [exact Hr |]. intros [_ Hv]. unfold aget.
  destruct (xToIndex s e <? 0)%Z eqn:E; [apply Z.ltb_lt in E; lia |].
  apply lookup_lt_is_Some. lia.
Qed.

(** X2 at a newly built simulation and an x far to the right of the
    scene. *)
Lemma xToIndex_in_range_witness :
  (0 <= xToIndex (new_WaterSimulation 500 300) 10000 <= surfaceN (new_WaterSimulation 500 300) - 1)%Z.
Proof.
  apply (proj1 (xToIndex_in_range (new_WaterSimulation 500 300) 10000
                  ltac:(vm_compute; discriminate))).
Defined.

(** ** [getWaterHeight] and [getBaseSurfaceY] *)

(** X3: with a volume that is not negative and a fill target (or, with
    no target, a scene height) that is not negative, the water height lies
    between 0 and that target, so the base surface lies between
    [height - target] and [height]. *)
Theorem getWaterHeight_bounds (s : Sim) :
  0 <= waterVolume s -> 0 <= js_or (targetFillHeight s) (height s) ->
  0 <= getWaterHeight s <= js_or (targetFillHeight s) (height s) /\
  height s - js_or (targetFillHeight s) (height s) <= getBaseSurfaceY s <= height s.
Proof.
  intros Hv Ht.
  assert (H : 0 <= getWaterHeight s <= js_or (targetFillHeight s) (height s)).
  { unfold getWaterHeight. destruct (Qle_bool (width s) 0) eqn:Ew; [lra |].
    apply Qle_bool_false in Ew. split; [| apply Qmin_glb_l].
    apply Q.min_glb; [exact Ht |].
    apply Qle_shift_div_l; [exact Ew | lra]. }
  split; [exact H |]. unfold getBaseSurfaceY. lra.
Qed.

(** X3 at [halfFull]. *)
Lemma getWaterHeight_bounds_witness :
  0 <= getWaterHeight halfFull <= js_or (targetFillHeight halfFull) (height halfFull).
Proof.
  apply (getWaterHeight_bounds halfFull).
  - vm_compute. discriminate.
  - vm_compute. discriminate.
Defined.

(** ** [spawnDroplet] *)

(** X4: below the cap [spawnDroplet] appends exactly one droplet and
    makes exactly four calls of [Math.random()].  The droplet has a volume
    of at least 0.0001, a radius in [1.5, 5.5], no vertical velocity, its
    previous position equal to its position, and, in a scene of
    non-negative width, an x-position inside the scene; with a
    non-negative random draw it starts at y <= -12, above the scene. *)
Theorem spawnDroplet_below_cap (M : Host) (s : Sim) (k : nat) :
  (length (droplets s) < maxDroplets)%nat ->
  exists d,
    spawnDroplet M (s, k) = (set_droplets (droplets s ++ [d]) s, (k + 4)%nat) /\
    0.0001 <= vol d /\ 1.5 <= r d <= 5.5 /\ vy d = 0 /\ px d = x d /\ py d = y d /\
    (0 <= width s -> 0 <= x d <= width s) /\
    (0 <= Math_random M (k + 2) -> y d <= -12).
Proof.
  intros Hcap. unfold spawnDroplet.
  destruct (maxDroplets <=? length (droplets s))%nat eqn:E;
    [apply Nat.leb_le in E; lia |].
  eexists. split; [reflexivity |]. cbn [vol r vy px py x y].
  split; [apply Qmax_lub_l |].
  split; [split; [apply Qmax_lub_l | apply Q.max_lub; [lra | apply Qmin_glb_l]] |].
  split; [reflexivity |]. split; [reflexivity |]. split; [reflexivity |].
  split.
  - intros Hw. split; [apply Qmax_lub_l |]. apply Q.max_lub; [exact Hw | apply Qmin_glb_l].
  - intros Hr. nra.
Qed.

(** X4 at the first spawn of [running]. *)
Lemma spawnDroplet_below_cap_witness :
  exists d,
    spawnDroplet demoHost (running, 0%nat)
    = (set_droplets (droplets running ++ [d]) running, 4%nat) /\
    0.0001 <= vol d /\ 1.5 <= r d <= 5.5.
Proof.
  destruct (spawnDroplet_below_cap demoHost running 0%nat ltac:(vm_compute; lia))
    as (d & E & Hv & Hr & _).
  exists d. split; [exact E |]. split; assumption.
Defined.

(** ** Invariants of the reachable states *)

Lemma update_ind_clamped (M : Host) (P : Sim -> Prop) :
  (forall now s, P s -> P (update_stream M now s)) ->
  (forall dt w, 0 <= dt <= 0.05 -> P (fst w) -> P (fst (update_emit M dt w))) ->
  (forall dt s, 0 <= dt <= 0.05 -> P s -> P (update_drain dt s)) ->
  (forall dt s, P s -> P (update_droplets dt s)) ->
  (forall dt s, P s -> P (update_whirlpool M dt s)) ->
  (forall b s, P s -> P (update_ceiling b s)) ->
  (forall dt s, P s -> P (stepSurface M dt s)) ->
  (forall s, P s -> P (update_autostop s)) ->
  forall now deltaTime w, P (fst w) -> P (fst (update M now deltaTime w)).
Proof.
  intros H1 H2 H3 H4 H5 H6 H7 H8 now deltaTime w Hw.
  unfold update, update_with_dt. cbv zeta. cbn [fst].
  pose proof (clamp_dt_range deltaTime) as Hc. unfold clamp_dt in Hc.
  apply H8, H7, H6, H5, H4, H3; [exact Hc |]. apply H2; [exact Hc |].
  cbn [fst]. now apply H1.
Qed.

Lemma emit_loop_accumulator_nonneg (M : Host) (fuel : nat) :
  forall w, 0 <= dropSpawnAccumulator (fst w) ->
            0 <= dropSpawnAccumulator (fst (emit_loop M fuel w)).
Proof.
  induction fuel as [| fuel IH]; intros w Hw; [exact Hw |].
  cbn [emit_loop].
  destruct (Qle_bool 1 (dropSpawnAccumulator (fst w))) eqn:E; [| exact Hw].
  apply IH. cbn [fst dropSpawnAccumulator set_dropSpawnAccumulator].
  rewrite spawnDroplet_accumulator. apply Qle_bool_iff in E. lra.
Qed.

(** The fields the drain and the target are kept in. *)
Lemma update_emit_keeps (M : Host) (dt : Q) (w : Sim * nat) :
  isDraining (fst (update_emit M dt w)) = isDraining (fst w) /\
  whirlpoolActive (fst (update_emit M dt w)) = whirlpoolActive (fst w) /\
  whirlpoolStrength (fst (update_emit M dt w)) = whirlpoolStrength (fst w) /\
  drainRate (fst (update_emit M dt w)) = drainRate (fst w) /\
  targetFillHeight (fst (update_emit M dt w)) = targetFillHeight (fst w) /\
  targetVolume (fst (update_emit M dt w)) = targetVolume (fst w) /\
  width (fst (update_emit M dt w)) = width (fst w) /\
  surfaceN (fst (update_emit M dt w)) = surfaceN (fst w).
Proof.
  unfold update_emit. destruct_ifs; [| repeat split].
  apply (emit_loop_ind M (fun s' =>
           isDraining s' = isDraining (fst w) /\
           whirlpoolActive s' = whirlpoolActive (fst w) /\
           whirlpoolStrength s' = whirlpoolStrength (fst w) /\
           drainRate s' = drainRate (fst w) /\
           targetFillHeight s' = targetFillHeight (fst w) /\
           targetVolume s' = targetVolume (fst w) /\
           width s' = width (fst w) /\ surfaceN s' = surfaceN (fst w))).
  - intros [s k]. unfold spawnDroplet. destruct_ifs; intros Hs; exact Hs.
  - intros e s Hs. exact Hs.
  - repeat split.
Qed.

Lemma sim_inv_update (M : Host) (now deltaTime : Q) (w : Sim * nat) :
  sim_inv (fst w) -> sim_inv (fst (update M now deltaTime w)).
Proof.
  apply (update_ind_clamped M sim_inv).
  - intros now' s Hs. exact Hs.
  - intros dt w' Hdt (I1 & I2 & I3 & I4 & I5 & I6).
    destruct (update_emit_keeps M dt w') as (E1 & E2 & E3 & E4 & E5 & E6 & E7 & E8).
    unfold sim_inv. rewrite E1, E2, E3, E4, E5, E6, E7, E8.
    repeat (split; [assumption |]). split; [| split; assumption].
    unfold update_emit.
    destruct (negb (isDraining (fst w')) && negb (whirlpoolActive (fst w'))
              && Qltb 0 (volumePerSecond (fst w'))) eqn:Ea; [| exact I4].
    split.
    + apply emit_loop_accumulator_nonneg. cbn [fst dropSpawnAccumulator
        set_dropSpawnAccumulator]. unfold dropsPerSecond. lra.
    + apply emit_loop_exits, emit_fuel_enough.
  - intros dt s Hdt Hs. unfold update_drain.
    destruct (isDraining s && Qltb 0 (drainRate s)) eqn:Ed; [| exact Hs].
    destruct Hs as (I1 & I2 & I3 & I4 & I5 & I6).
    apply andb_prop in Ed. destruct Ed as [Ed _].
    unfold sim_inv. cbn. rewrite Ed in *.
    split; [assumption |]. split; [congruence |].
    split; [split; [apply Q.min_glb; lra | apply Qmin_glb_l] |].
    split; [assumption |]. split; assumption.
  - intros dt s Hs. unfold update_droplets.
    pose proof (droplet_loop_ind sim_inv dt) as H.
    specialize (H ltac:(intros d s' Hs';
                        destruct (step_droplet_cases dt d s') as [(e & st & E) | [E | (d' & E & _)]];
                        rewrite E; exact Hs') (droplets s) s Hs).
    destruct (droplet_loop dt (droplets s) s) as [s' kept]. exact H.
  - intros dt s Hs. unfold update_whirlpool. destruct_ifs; [| exact Hs].
    unfold whirlpool_sink. apply for_upto_ind; [| exact Hs].
    intros i s' H'. unfold sink_at. destruct_ifs; exact H'.
  - intros b s Hs. unfold update_ceiling. destruct_ifs; exact Hs.
  - intros dt s Hs. unfold stepSurface. destruct (surfaceN s <=? 2)%Z; [exact Hs |].
    cbv zeta.
    match goal with |- sim_inv (if _ then set_h _ ?s2 else _) =>
      assert (H2 : sim_inv s2) end.
    { apply for_upto_ind; [intros i s' H'; exact H' |].
      apply for_upto_ind; [intros i s' H'; exact H' | exact Hs]. }
    destruct (Qltb 0 surfaceViscosity); exact H2.
  - intros s Hs. unfold update_autostop. destruct_ifs; [| exact Hs].
    destruct Hs as (I1 & I2 & I3 & I4 & I5 & I6).
    unfold sim_inv. cbn.
    split; [reflexivity |]. split; [split; reflexivity |].
    split; [lra |]. split; [assumption |]. split; assumption.
Qed.

Lemma resize_fields (newWidth newHeight : Q) (s : Sim) :
  isDraining (resize newWidth newHeight s) = isDraining s /\
  whirlpoolActive (resize newWidth newHeight s) = whirlpoolActive s /\
  whirlpoolStrength (resize newWidth newHeight s) = whirlpoolStrength s /\
  drainRate (resize newWidth newHeight s) = drainRate s /\
  dropSpawnAccumulator (resize newWidth newHeight s) = dropSpawnAccumulator s /\
  targetFillHeight (resize newWidth newHeight s) = targetFillHeight s /\
  width (resize newWidth newHeight s) = newWidth /\
  surfaceN (resize newWidth newHeight s) = Z.max 96 (Qfloor (newWidth / 3)) /\
  targetVolume (resize newWidth newHeight s) =
    (if Qltb 0 (targetFillHeight s) then newWidth * targetFillHeight s else targetVolume s) /\
  streamX (resize newWidth newHeight s) = newWidth * 0.55.
Proof.
  unfold resize. cbv zeta.
  set (s2 := if Qltb 0 _ then _ else _).
  set (s3 := initSurfaceField s2).
  set (c := (_ && _)%bool).
  set (s4 := if c then _ else s3).
  assert (H4 : isDraining s4 = isDraining s3 /\ whirlpoolActive s4 = whirlpoolActive s3 /\
               whirlpoolStrength s4 = whirlpoolStrength s3 /\ drainRate s4 = drainRate s3 /\
               dropSpawnAccumulator s4 = dropSpawnAccumulator s3 /\
               targetFillHeight s4 = targetFillHeight s3 /\ width s4 = width s3 /\
               surfaceN s4 = surfaceN s3 /\ targetVolume s4 = targetVolume s3).
  { subst s4. destruct c; [| repeat split].
    apply (for_upto_ind (fun s' =>
             isDraining s' = isDraining s3 /\ whirlpoolActive s' = whirlpoolActive s3 /\
             whirlpoolStrength s' = whirlpoolStrength s3 /\ drainRate s' = drainRate s3 /\
             dropSpawnAccumulator s' = dropSpawnAccumulator s3 /\
             targetFillHeight s' = targetFillHeight s3 /\ width s' = width s3 /\
             surfaceN s' = surfaceN s3 /\ targetVolume s' = targetVolume s3));
      [| repeat split].
    intros i s' H'. exact H'. }
  destruct H4 as (E1 & E2 & E3 & E4 & E5 & E6 & E7 & E8 & E9).
  cbn [isDraining whirlpoolActive whirlpoolStrength drainRate dropSpawnAccumulator
       targetFillHeight width surfaceN targetVolume streamX set_streamX set_droplets].
  rewrite E1, E2, E3, E4, E5, E6, E7, E8, E9.
  subst s3 s2.
  change (targetFillHeight (set_height newHeight (set_width newWidth s)))
    with (targetFillHeight s).
  destruct (Qltb 0 (targetFillHeight s)); repeat split.
Qed.

Lemma sim_inv_resize (newWidth newHeight : Q) (s : Sim) :
  isDraining s = whirlpoolActive s ->
  (isDraining s = false -> whirlpoolStrength s = 0 /\ drainRate s = 0) ->
  0 <= whirlpoolStrength s <= 3.5 ->
  0 <= dropSpawnAccumulator s < 1 ->
  (0 <= targetFillHeight s -> targetVolume s == width s * targetFillHeight s) ->
  sim_inv (resize newWidth newHeight s).
Proof.
  intros I1 I2 I3 I4 I5.
  destruct (resize_fields newWidth newHeight s)
    as (E1 & E2 & E3 & E4 & E5 & E6 & E7 & E8 & E9 & _).
  unfold sim_inv. rewrite E1, E2, E3, E4, E5, E6, E7, E8, E9.
  split; [assumption |]. split; [assumption |]. split; [assumption |].
  split; [assumption |]. split; [| reflexivity].
  intros Ht. destruct (Qltb 0 (targetFillHeight s)) eqn:E; [reflexivity |].
  apply Qltb_false in E. rewrite (I5 Ht).
  assert (E0 : targetFillHeight s == 0) by lra. rewrite E0. ring.
Qed.

Lemma reachable_sim_inv (M : Host) (s : Sim) : reachable M s -> sim_inv s.
Proof.
  induction 1 as [iw ih | iw ih s _ IH | e s _ IH | e s _ IH | s _ IH
                 | now dt k s _ IH | s _ IH].
  - unfold new_WaterSimulation. apply sim_inv_resize; cbn; try (split; reflexivity);
      try reflexivity; lra.
  - destruct IH as (I1 & I2 & I3 & I4 & I5 & _). now apply sim_inv_resize.
  - destruct IH as (I1 & I2 & I3 & I4 & I5 & I6). unfold sim_inv. cbn.
    repeat (split; [assumption |]). split; [intros _; reflexivity | assumption].
  - exact IH.
  - destruct IH as (I1 & I2 & I3 & I4 & I5 & I6). unfold sim_inv. cbn.
    split; [reflexivity |]. split; [split; reflexivity |]. split; [lra |].
    split; [lra |]. split; assumption.
  - apply (sim_inv_update M now dt (s, k)). exact IH.
  - destruct IH as (I1 & I2 & I3 & I4 & I5 & I6). unfold sim_inv. cbn.
    split; [reflexivity |]. split; [discriminate |]. split; [lra |].
    split; [assumption |]. split; assumption.
Qed.

(** The state after the first frame of [running]. *)
Lemma running_frame_reachable :
  reachable demoHost (fst (update demoHost 0 0.016 (running, 0%nat))).
Proof. apply reach_update, reach_setEmission, reach_new. Qed.

(** X5: in every reachable state the two drain flags [isDraining] and
    [whirlpoolActive] are equal, the whirlpool strength lies in
    [0, 3.5], and with the drain off the strength and the drain rate are
    0. *)
Theorem drain_flags_agree (M : Host) (s : Sim) :
  reachable M s ->
  isDraining s = whirlpoolActive s /\
  0 <= whirlpoolStrength s <= 3.5 /\
  (isDraining s = false -> whirlpoolStrength s = 0 /\ drainRate s = 0).
Proof.
  intros Hr. destruct (reachable_sim_inv M s Hr) as (I1 & I2 & I3 & _).
  split; [exact I1 |]. split; [exact I3 | exact I2].
Qed.

(** X5 after [startDraining()] on [halfFull]'s window. *)
Lemma drain_flags_agree_witness :
  isDraining (startDraining (new_WaterSimulation 500 300))
  = whirlpoolActive (startDraining (new_WaterSimulation 500 300)) /\
  0 <= whirlpoolStrength (startDraining (new_WaterSimulation 500 300)) <= 3.5.
Proof.
  destruct (drain_flags_agree demoHost (startDraining (new_WaterSimulation 500 300))
              (reach_startDraining demoHost _ (reach_new demoHost 500 300)))
    as (H1 & H2 & _).
  split; assumption.
Defined.

(** X6: in every reachable state the spawn accumulator holds a
    fraction of a droplet: it lies in [0, 1). *)
Theorem accumulator_is_fraction (M : Host) (s : Sim) :
  reachable M s -> 0 <= dropSpawnAccumulator s < 1.
Proof. intros Hr. exact (proj1 (proj2 (proj2 (proj2 (reachable_sim_inv M s Hr))))). Qed.

(** X6 after the first frame of [running]. *)
Lemma accumulator_is_fraction_witness :
  0 <= dropSpawnAccumulator (fst (update demoHost 0 0.016 (running, 0%nat))) < 1.
Proof. exact (accumulator_is_fraction demoHost _ running_frame_reachable). Defined.

(** X7: in every reachable state whose target height is not negative,
    the target volume is [width * targetFillHeight], through every
    [resize]. *)
Theorem targetVolume_tracks_width (M : Host) (s : Sim) :
  reachable M s -> 0 <= targetFillHeight s ->
  targetVolume s == width s * targetFillHeight s.
Proof.
  intros Hr. exact (proj1 (proj2 (proj2 (proj2 (proj2 (reachable_sim_inv M s Hr)))))).
Qed.

(** X7 after a target of 300 and a resize to 800 x 600. *)
Lemma targetVolume_tracks_width_witness :
  targetVolume (resize 800 600 (setTargetFillHeight 300 (new_WaterSimulation 500 300)))
  == width (resize 800 600 (setTargetFillHeight 300 (new_WaterSimulation 500 300)))
     * targetFillHeight (resize 800 600 (setTargetFillHeight 300 (new_WaterSimulation 500 300))).
Proof.
  apply (targetVolume_tracks_width demoHost).
  - apply reach_resize, reach_setTargetFillHeight, reach_new.
  - rewrite (proj1 (proj2 (proj2 (resize_keeps 800 600 _)))). vm_compute. discriminate.
Defined.

(** X8: in every reachable state the number of heightfield samples is
    [max(96, floor(width / 3))]; it is at least 96, so [stepSurface] and
    [sampleSurfaceOffset] never take their short-field returns. *)
Theorem surfaceN_from_width (M : Host) (s : Sim) :
  reachable M s ->
  surfaceN s = Z.max 96 (Qfloor (width s / 3)) /\ (96 <= surfaceN s)%Z /\
  (surfaceN s <=? 2)%Z = false /\ (surfaceN s <=? 1)%Z = false.
Proof.
  intros Hr.
  pose proof (proj2 (proj2 (proj2 (proj2 (proj2 (reachable_sim_inv M s Hr)))))) as E.
  split; [exact E |]. split; [lia |]. split; apply Z.leb_gt; lia.
Qed.

(** X8 after the first frame of [running]. *)
Lemma surfaceN_from_width_witness :
  (96 <= surfaceN (fst (update demoHost 0 0.016 (running, 0%nat))))%Z.
Proof.
  exact (proj1 (proj2 (surfaceN_from_width demoHost _ running_frame_reachable))).
Defined.

(** ** The reservoir stays within its bounds *)

(** X9: from a reachable state with a scene height, a volume and a
    target volume that are not negative, [update] returns a state whose
    volume is not negative; and if the target volume is positive and the
    volume was within it, the volume is still within it. *)
Theorem volume_within_target (M : Host) (now deltaTime : Q) (s : Sim) (k : nat) :
  reachable M s ->
  0 <= height s -> 0 <= waterVolume s -> 0 <= targetVolume s ->
  0 <= waterVolume (fst (update M now deltaTime (s, k))) /\
  (0 < targetVolume s -> waterVolume s <= targetVolume s ->
   waterVolume (fst (update M now deltaTime (s, k))) <= targetVolume s).
Proof.
  intros Hreach Hh Hv Htv.
  apply update_volume_bounds; try assumption.
  exact (reachable_vols_ok M s Hreach).
Qed.

(** X9 at the first frame of a timer that fills a 500 x 300 window. *)
Lemma volume_within_target_witness :
  0 <= waterVolume (fst (update demoHost 0 0.016
         (setEmission 2500 (setTargetFillHeight 300 (new_WaterSimulation 500 300)), 0%nat))).
Proof.
  refine (proj1 (volume_within_target demoHost 0 0.016
                   (setEmission 2500 (setTargetFillHeight 300 (new_WaterSimulation 500 300)))
                   0%nat _ _ _ _)).
  - apply reach_setEmission, reach_setTargetFillHeight, reach_new.
  - vm_compute. discriminate.
  - vm_compute. discriminate.
  - vm_compute. discriminate.
Defined.

(** ** Emission and drain exclude each other *)

(** X10: while [isDraining] or [whirlpoolActive] is set, or while the
    emission rate is not positive, [update] makes no call of
    [Math.random()] and adds no droplet. *)
Theorem no_emission_while_draining (M : Host) (now deltaTime : Q) (s : Sim) (k : nat) :
  isDraining s = true \/ whirlpoolActive s = true \/ volumePerSecond s <= 0 ->
  snd (update M now deltaTime (s, k)) = k /\
  (length (droplets (fst (update M now deltaTime (s, k)))) <= length (droplets s))%nat.
Proof.
  intros Hoff.
  assert (Eemit : update_emit M (clamp_dt deltaTime) (update_stream M now s, k)
                  = (update_stream M now s, k)).
  { unfold update_emit. cbn [fst isDraining whirlpoolActive volumePerSecond update_stream
                             set_streamX].
    destruct Hoff as [H | [H | H]].
    - rewrite H. reflexivity.
    - rewrite H. cbn [negb]. now rewrite andb_false_r.
    - apply Qltb_false in H. rewrite H. now rewrite andb_false_r. }
  split.
  - destruct (update_chain M now deltaTime s k)
      as (s1 & w2 & s3 & s5 & s6 & s7 & s8 & E1 & E2 & _ & _ & _ & _ & _ & E).
    rewrite E. cbn [snd]. rewrite E2, E1, Eemit. reflexivity.
  - rewrite update_droplets_final, Eemit. cbn [fst].
    etransitivity; [apply update_droplets_length |].
    unfold update_drain. destruct_ifs; cbn; lia.
Qed.

(** X10 at the first frame after [startDraining()] on [running]. *)
Lemma no_emission_while_draining_witness :
  snd (update demoHost 0 0.016 (startDraining running, 7%nat)) = 7%nat.
Proof.
  refine (proj1 (no_emission_while_draining demoHost 0 0.016 (startDraining running) 7%nat _)).
  left. reflexivity.
Defined.

(** X11: one [update] of a draining simulation with no droplet in
    flight, a volume and a scene height that are not negative: the volume
    does not rise and does not go below 0, no droplet appears, and the
    drain is still on afterwards exactly when the volume is still
    positive. *)
Theorem draining_lowers_volume (M : Host) (now deltaTime : Q) (s : Sim) (k : nat) :
  isDraining s = true -> whirlpoolActive s = true -> droplets s = [] ->
  0 <= waterVolume s -> 0 <= height s -> 0 <= drainRate s ->
  0 <= waterVolume (fst (update M now deltaTime (s, k))) <= waterVolume s /\
  droplets (fst (update M now deltaTime (s, k))) = [] /\
  (isDraining (fst (update M now deltaTime (s, k))) = true <->
   0 < waterVolume (fst (update M now deltaTime (s, k)))).
Proof.
  intros Hd Hw Hds Hv Hh Hr.
  destruct (update_draining M now deltaTime s k Hd Hw Hds Hv Hh)
    as (s' & E & D' & H' & V0 & Vd & Hcases).
  rewrite E. cbn [fst]. pose proof (clamp_dt_range deltaTime) as Hc.
  assert (Hle : waterVolume s' <= waterVolume s).
  { destruct (Qltb 0 (drainRate s)); [| exact Vd].
    destruct (Qmax_cases 0 (waterVolume s - drainRate s * clamp_dt deltaTime))
      as [[Em _] | [Em _]]; rewrite Em in Vd; [lra | nra]. }
  split; [split; assumption |]. split; [exact D' |].
  destruct Hcases as [(Ve & I' & _) | (Vp & I' & _)]; rewrite I'; split;
    intros; try discriminate; try reflexivity; try assumption; lra.
Qed.

(** X11 at the first frame after [startDraining()] on [halfFull]. *)
Lemma draining_lowers_volume_witness :
  0 <= waterVolume (fst (update demoHost 0 0.016 (startDraining halfFull, 0%nat)))
    <= waterVolume (startDraining halfFull).
Proof.
  refine (proj1 (draining_lowers_volume demoHost 0 0.016 (startDraining halfFull) 0%nat
                   _ _ _ _ _ _)).
  - reflexivity.
  - reflexivity.
  - vm_compute. reflexivity.
  - vm_compute. discriminate.
  - vm_compute. discriminate.
  - vm_compute. discriminate.
Defined.

(** ** What [update] and [stepSurface] leave alone *)

(** X12: [update] never assigns the scene size, the fill target, the
    target volume, the emission rate, the sample count or the whirlpool
    center; [stepSurface] and the whirlpool sink assign nothing but the
    heightfield arrays. *)
Theorem update_keeps_configuration (M : Host) (now deltaTime : Q) (s : Sim) (k : nat) :
  (width (fst (update M now deltaTime (s, k))) = width s /\
   height (fst (update M now deltaTime (s, k))) = height s /\
   targetFillHeight (fst (update M now deltaTime (s, k))) = targetFillHeight s /\
   targetVolume (fst (update M now deltaTime (s, k))) = targetVolume s /\
   volumePerSecond (fst (update M now deltaTime (s, k))) = volumePerSecond s /\
   surfaceN (fst (update M now deltaTime (s, k))) = surfaceN s /\
   whirlpoolCenter (fst (update M now deltaTime (s, k))) = whirlpoolCenter s) /\
  set_v [] (set_h [] (stepSurface M deltaTime s)) = set_v [] (set_h [] s) /\
  set_v [] (set_h [] (whirlpool_sink M deltaTime s)) = set_v [] (set_h [] s).
Proof.
  split; [exact (static_update M now deltaTime (s, k)) |].
  split; [exact (stepSurface_surface_only M deltaTime s) |].
  exact (whirlpool_sink_surface_only M deltaTime s).
Qed.

(** ** [TimerController.start] *)



(** ** [calculateTotalSeconds] and [formatTime] *)

Lemma formatTime_fields_sound (seconds : Z) :
  (0 <= seconds)%Z ->
  let '(hh, mm, ss) := formatTime_fields seconds in
  calculateTotalSeconds hh mm ss = seconds /\
  (0 <= hh)%Z /\ (0 <= mm < 60)%Z /\ (0 <= ss < 60)%Z.
Proof.
  intros Hs. unfold formatTime_fields, calculateTotalSeconds.
  rewrite !Z.rem_mod_nonneg by lia.
  pose proof (Z.div_mod seconds 3600 ltac:(lia)) as H1.
  pose proof (Z.mod_pos_bound seconds 3600 ltac:(lia)) as H2.
  pose proof (Z.div_mod (seconds mod 3600) 60 ltac:(lia)) as H3.
  pose proof (Z.mod_pos_bound (seconds mod 3600) 60 ltac:(lia)) as H4.
  pose proof (Z.mod_pos_bound seconds 60 ltac:(lia)) as H5.
  assert (H6 : ((seconds mod 3600) mod 60 = seconds mod 60)%Z).
  { apply (Z.mod_unique seconds 60 (60 * (seconds / 3600) + seconds mod 3600 / 60));
      lia. }
  assert (H7 : (0 <= seconds / 3600)%Z) by (apply Z.div_pos; lia).
  assert (H8 : (0 <= seconds mod 3600 / 60 < 60)%Z).
  { split; [apply Z.div_pos; lia | apply Z.div_lt_upper_bound; lia]. }
  repeat split; lia.
Qed.

Lemma formatTime_fields_of_total (hh mm ss : Z) :
  (0 <= hh)%Z -> (0 <= mm < 60)%Z -> (0 <= ss < 60)%Z ->
  formatTime_fields (calculateTotalSeconds hh mm ss) = (hh, mm, ss).
Proof.
  intros Hh Hm Hs. unfold formatTime_fields, calculateTotalSeconds.
  assert (Hn : (0 <= hh * 3600 + mm * 60 + ss)%Z) by lia.
  rewrite !Z.rem_mod_nonneg by lia.
  assert (E1 : ((hh * 3600 + mm * 60 + ss) / 3600 = hh)%Z).
  { symmetry. apply (Z.div_unique _ _ hh (mm * 60 + ss)); lia. }
  assert (E2 : ((hh * 3600 + mm * 60 + ss) mod 3600 = mm * 60 + ss)%Z).
  { symmetry. apply (Z.mod_unique _ _ hh (mm * 60 + ss)); lia. }
  assert (E3 : ((mm * 60 + ss) / 60 = mm)%Z).
  { symmetry. apply (Z.div_unique _ _ mm ss); lia. }
  assert (E4 : ((hh * 3600 + mm * 60 + ss) mod 60 = ss)%Z).
  { symmetry. apply (Z.mod_unique _ _ (hh * 60 + mm) ss); lia. }
  now rewrite E1, E2, E3, E4.
Qed.

(** X14: the hours, minutes and seconds [formatTime] prints for a whole,
    non-negative number of seconds are the ones [calculateTotalSeconds]
    maps back to that number, with minutes and seconds below 60; and the
    fields of [calculateTotalSeconds(h, m, s)], for minutes and seconds
    below 60, are [h], [m] and [s]. *)
Theorem formatTime_fields_round_trip :
  (forall seconds, (0 <= seconds)%Z ->
     let '(hh, mm, ss) := formatTime_fields seconds in
     calculateTotalSeconds hh mm ss = seconds /\
     (0 <= hh)%Z /\ (0 <= mm < 60)%Z /\ (0 <= ss < 60)%Z) /\
  (forall hh mm ss, (0 <= hh)%Z -> (0 <= mm < 60)%Z -> (0 <= ss < 60)%Z ->
     formatTime_fields (calculateTotalSeconds hh mm ss) = (hh, mm, ss)).
Proof.
  split; [exact formatTime_fields_sound | exact formatTime_fields_of_total].
Qed.

(** X14 at 3725 seconds, which is 1 h 2 min 5 s. *)
Lemma formatTime_fields_round_trip_witness :
  formatTime_fields (calculateTotalSeconds 1 2 5) = (1%Z, 2%Z, 5%Z).
Proof.
  refine (proj2 formatTime_fields_round_trip 1%Z 2%Z 5%Z _ _ _); lia.
Defined.

(** A field below 100, padded, is two characters wide, and two
    different fields give two different texts.  Both by running
    [padStart2] on all hundred fields. *)
Lemma padStart2_two_wide (n : Z) :
  (0 <= n < 100)%Z -> String.length (padStart2 (pretty n)) = 2%nat.
Proof.
  intros Hn.
  assert (H : forallb (fun i => Nat.eqb (String.length (padStart2 (pretty (Z.of_nat i)))) 2)
                      (seq 0 100) = true) by (vm_compute; reflexivity).
  rewrite forallb_forall in H. specialize (H (Z.to_nat n)).
  rewrite Z2Nat.id in H by lia. apply Nat.eqb_eq, H, in_seq. lia.
Qed.

Lemma padStart2_inj (n n' : Z) :
  (0 <= n < 100)%Z -> (0 <= n' < 100)%Z ->
  padStart2 (pretty n) = padStart2 (pretty n') -> n = n'.
Proof.
  intros Hn Hn' E.
  assert (H : forallb (fun i => forallb (fun j =>
                implb (String.eqb (padStart2 (pretty (Z.of_nat i)))
                                  (padStart2 (pretty (Z.of_nat j))))
                      (Nat.eqb i j)) (seq 0 100)) (seq 0 100) = true)
    by (vm_compute; reflexivity).
  rewrite forallb_forall in H. specialize (H (Z.to_nat n) ltac:(apply in_seq; lia)).
  rewrite forallb_forall in H. specialize (H (Z.to_nat n') ltac:(apply in_seq; lia)).
  rewrite !Z2Nat.id in H by lia. rewrite E, String.eqb_refl in H. cbn [implb] in H.
  apply Nat.eqb_eq in H. lia.
Qed.

Lemma append_two_inj (a a' b b' : string) :
  String.length a = 2%nat -> String.length a' = 2%nat ->
  String.append a b = String.append a' b' -> a = a' /\ b = b'.
Proof.
  intros Ha Ha' E.
  destruct a as [| c1 [| c2 [| c3 a]]]; try discriminate Ha.
  destruct a' as [| c1' [| c2' [| c3' a']]]; try discriminate Ha'.
  change (String c1 (String c2 b) = String c1' (String c2' b')) in E.
  injection E as -> -> ->. split; reflexivity.
Qed.

Lemma colon_inj (a b : string) : String.append ":" a = String.append ":" b -> a = b.
Proof. intros E. cbv in E. now injection E. Qed.

Lemma string_length_append (a b : string) :
  String.length (String.append a b) = (String.length a + String.length b)%nat.
Proof.
  induction a as [| c a IH]; [reflexivity |].
  change (String.append (String c a) b) with (String c (String.append a b)).
  cbn [String.length]. now rewrite IH.
Qed.

(** X15: for a whole number of seconds from 0 to 359999 (below 100
    hours) the text [formatTime] returns is eight characters long, and
    two different such numbers give two different texts. *)
Theorem formatTime_text (seconds seconds' : Z) :
  (0 <= seconds < 360000)%Z -> (0 <= seconds' < 360000)%Z ->
  String.length (formatTime seconds) = 8%nat /\
  (formatTime seconds = formatTime seconds' -> seconds = seconds').
Proof.
  intros Hs Hs'.
  pose proof (formatTime_fields_sound seconds ltac:(lia)) as R.
  pose proof (formatTime_fields_sound seconds' ltac:(lia)) as R'.
  unfold formatTime.
  destruct (formatTime_fields seconds) as [[hh mm] ss].
  destruct (formatTime_fields seconds') as [[hh' mm'] ss'].
  destruct R as (R1 & R2 & R3 & R4). destruct R' as (R1' & R2' & R3' & R4').
  unfold calculateTotalSeconds in R1, R1'.
  assert (Hh : (0 <= hh < 100)%Z) by lia.
  assert (Hh' : (0 <= hh' < 100)%Z) by lia.
  pose proof (padStart2_two_wide hh Hh) as L1.
  pose proof (padStart2_two_wide mm ltac:(lia)) as L2.
  pose proof (padStart2_two_wide ss ltac:(lia)) as L3.
  pose proof (padStart2_two_wide hh' Hh') as L1'.
  pose proof (padStart2_two_wide mm' ltac:(lia)) as L2'.
  split.
  - rewrite !string_length_append, L1, L2, L3. reflexivity.
  - intros E.
    apply append_two_inj in E; [| assumption | assumption]. destruct E as [E1 E].
    apply colon_inj in E.
    apply append_two_inj in E; [| assumption | assumption]. destruct E as [E2 E3].
    apply colon_inj in E3.
    apply padStart2_inj in E1; [| lia | lia].
    apply padStart2_inj in E2; [| lia | lia].
    apply padStart2_inj in E3; [| lia | lia].
    lia.
Qed.

(** X15 at 3725 and 3726 seconds. *)
Lemma formatTime_text_witness :
  String.length (formatTime 3725) = 8%nat /\
  (formatTime 3725 = formatTime 3726 -> 3725%Z = 3726%Z).
Proof.
  refine (formatTime_text 3725 3726 _ _); lia.
Defined.

(** ** [addRippleImpulse] and the whirlpool sink, sample by sample *)

Lemma bump_read (i : Z) (e : Q) (a : list Q) (j : Z) :
  (0 <= j < Z.of_nat (length a))%Z ->
  aread (bump i e a) j = if (j =? i)%Z then aread a j + e else aread a j.
Proof.
  intros Hj. unfold bump.
  destruct (Z.eqb_spec j i) as [-> | Hne].
  - unfold aget. destruct (i <? 0)%Z eqn:E; [apply Z.ltb_lt in E; lia |].
    destruct (lookup_lt_is_Some_2 a (Z.to_nat i) ltac:(lia)) as [old Hold].
    rewrite Hold. rewrite aread_aset_eq by lia.
    unfold aread, aget. rewrite E, Hold. reflexivity.
  - destruct (aget a i); [| reflexivity]. apply aread_aset_ne. congruence.
Qed.

(** X16: in a field whose arrays have the length [surfaceN] (at least
    one sample), [addRippleImpulse(x, strength)] leaves [h] and the length
    of [v] as they are and adds to each velocity the share of [strength]
    that belongs to its distance from [xToIndex(x)]: all of it at the
    index, 0.75, 0.45 and 0.20 of it at distance 1, 2 and 3, nothing
    beyond; neighbours that fall outside the field are skipped. *)
Theorem addRippleImpulse_pointwise (s : Sim) (e strength : Q) :
  surface_ok s -> (1 <= surfaceN s)%Z ->
  h (addRippleImpulse e strength s) = h s /\
  length (v (addRippleImpulse e strength s)) = length (v s) /\
  forall j, (0 <= j < surfaceN s)%Z ->
    aread (v (addRippleImpulse e strength s)) j
    = ripple_at strength (j - xToIndex s e) (aread (v s) j).
Proof.
  intros [_ Hv] HN. split; [reflexivity |].
  split; [unfold addRippleImpulse; cbn [v set_v]; now rewrite !bump_length |].
  intros j Hj. unfold addRippleImpulse. cbn [v set_v].
  set (idx := xToIndex s e).
  rewrite !bump_read by (rewrite ?bump_length; lia).
  unfold ripple_at.
  destruct (Z.eqb_spec j (idx + 3)), (Z.eqb_spec j (idx - 3)), (Z.eqb_spec j (idx + 2)),
    (Z.eqb_spec j (idx - 2)), (Z.eqb_spec j (idx + 1)), (Z.eqb_spec j (idx - 1)),
    (Z.eqb_spec j idx); try lia;
    match goal with
    | |- _ = match ?d with _ => _ end =>
        first [ replace d with 0%Z by lia | replace d with 1%Z by lia
              | replace d with (-1)%Z by lia | replace d with 2%Z by lia
              | replace d with (-2)%Z by lia | replace d with 3%Z by lia
              | replace d with (-3)%Z by lia | idtac ]
    end; try reflexivity.
  destruct (j - idx)%Z as [| [p | p |] | [p | p |]] eqn:Ed; try lia; try reflexivity;
    destruct p; try reflexivity; lia.
Qed.

(** X16 for an impulse in the middle of a newly built field. *)
Lemma addRippleImpulse_pointwise_witness :
  aread (v (addRippleImpulse 250 100 (new_WaterSimulation 500 300))) 80
  = ripple_at 100 (80 - xToIndex (new_WaterSimulation 500 300) 250)
      (aread (v (new_WaterSimulation 500 300)) 80).
Proof.
  refine (proj2 (proj2 (addRippleImpulse_pointwise (new_WaterSimulation 500 300) 250 100
                          (resize_ok 500 300 fresh) _)) 80%Z _).
  - vm_compute. discriminate.
  - vm_compute. split; [discriminate | reflexivity].
Defined.

Lemma sink_loop (M : Host) (idx : Z) (sink dt : Q) (n : nat) :
  forall (lo : Z) (s : Sim),
    Z.of_nat (length (v s)) = surfaceN s ->
    surfaceN (for_range lo n (sink_at M idx sink dt) s) = surfaceN s /\
    length (v (for_range lo n (sink_at M idx sink dt) s)) = length (v s) /\
    h (for_range lo n (sink_at M idx sink dt) s) = h s /\
    forall j, (0 <= j < surfaceN s)%Z ->
      aread (v (for_range lo n (sink_at M idx sink dt) s)) j =
        if in_span lo n (j - idx)
        then aread (v s) j
             + sink * Math_exp M (- (inject_Z (j - idx) * inject_Z (j - idx)) / (2 * 9 * 9)) * dt
        else aread (v s) j.
Proof.
  induction n as [| n IH]; intros lo s Hlen.
  - cbn [for_range]. repeat split. intros j Hj. unfold in_span. zbool.
  - cbn [for_range].
    remember (sink_at M idx sink dt lo s) as s1 eqn:Es1.
    unfold sink_at in Es1. cbv zeta in Es1.
    destruct ((idx + lo <? 0)%Z || (surfaceN s <=? idx + lo)%Z) eqn:Eout.
    + subst s1. destruct (IH (lo + 1)%Z s Hlen) as (HN & Hl & Hh & Hv).
      split; [exact HN |]. split; [exact Hl |]. split; [exact Hh |].
      intros j Hj. rewrite (Hv j Hj).
      assert (Hne : (j - idx)%Z <> lo).
      { intros <-. apply orb_true_iff in Eout.
        destruct Eout as [E | E]; [apply Z.ltb_lt in E | apply Z.leb_le in E]; lia. }
      now rewrite (in_span_rest lo n (j - idx) Hne).
    + apply orb_false_iff in Eout. destruct Eout as [E1 E2].
      apply Z.ltb_ge in E1. apply Z.leb_gt in E2.
      assert (Hlen1 : Z.of_nat (length (v s1)) = surfaceN s1).
      { subst s1. cbn [v surfaceN set_v]. rewrite aset_length. exact Hlen. }
      destruct (IH (lo + 1)%Z s1 Hlen1) as (HN & Hl & Hh & Hv).
      assert (F1 : surfaceN s1 = surfaceN s /\ length (v s1) = length (v s) /\ h s1 = h s /\
                   v s1 = aset (v s) (idx + lo)
                            (aread (v s) (idx + lo)
                             + sink * Math_exp M (- (inject_Z lo * inject_Z lo) / (2 * 9 * 9))
                               * dt)).
      { subst s1. cbn [v h surfaceN set_v]. rewrite aset_length. repeat split. }
      destruct F1 as (F1n & F1l & F1h & F1v).
      rewrite F1n in HN, Hv. rewrite F1l in Hl. rewrite F1h in Hh.
      split; [exact HN |]. split; [exact Hl |]. split; [exact Hh |].
      intros j Hj. rewrite (Hv j Hj), F1v.
      destruct (Z.eq_dec (j - idx)%Z lo) as [Heq | Hne].
      * assert (Ej : j = (idx + lo)%Z) by lia. subst j.
        rewrite Heq, in_span_first_not_rest, in_span_first.
        rewrite aread_aset_eq by lia. reflexivity.
      * rewrite (in_span_rest lo n (j - idx) Hne).
        rewrite aread_aset_ne by lia. reflexivity.
Qed.

(** X17: in a field whose arrays have the length [surfaceN], the
    whirlpool sink of [update] leaves [h] and the length of [v] as they
    are and adds to each velocity within 28 samples of the index of the
    whirlpool center the sink [-1600 * whirlpoolStrength] times the
    Gaussian weight of the distance times [dt]; velocities farther out
    keep their value. *)
Theorem whirlpool_sink_pointwise (M : Host) (dt : Q) (s : Sim) :
  surface_ok s ->
  h (whirlpool_sink M dt s) = h s /\
  length (v (whirlpool_sink M dt s)) = length (v s) /\
  forall j, (0 <= j < surfaceN s)%Z ->
    aread (v (whirlpool_sink M dt s)) j
    = sink_term M (-1600 * whirlpoolStrength s) dt
        (j - xToIndex s (fst (whirlpoolCenter s))) (aread (v s) j).
Proof.
  intros [_ Hv]. unfold whirlpool_sink, for_upto. cbv zeta.
  destruct (sink_loop M (xToIndex s (fst (whirlpoolCenter s)))
              (-1600 * whirlpoolStrength s) dt (Z.to_nat (29 - -28)) (-28)%Z s Hv)
    as (_ & Hl & Hh & Hj).
  split; [exact Hh |]. split; [exact Hl |].
  intros j Hr. rewrite (Hj j Hr). reflexivity.
Qed.

(** X17 at a simulation that has just been told to drain. *)
Lemma whirlpool_sink_pointwise_witness :
  length (v (whirlpool_sink demoHost 0.016 (startDraining (new_WaterSimulation 500 300))))
  = length (v (startDraining (new_WaterSimulation 500 300))).
Proof.
  refine (proj1 (proj2 (whirlpool_sink_pointwise demoHost 0.016
                          (startDraining (new_WaterSimulation 500 300)) _))).
  exact (reachable_surface_ok demoHost _
           (reach_startDraining demoHost _ (reach_new demoHost 500 300))).
Defined.

(** ** [sampleSurfaceOffset] *)

(** X18: in a scene of non-zero width with at least two samples,
    [sampleSurfaceOffset] at the x-position [render] draws sample [i] at
    returns [h[i]] (or 0 where [h] has no sample [i]): the interpolation
    goes through the samples. *)
Theorem sampleSurfaceOffset_at_sample (s : Sim) (i : Z) :
  ~ width s == 0 -> (2 <= surfaceN s)%Z ->
  sampleSurfaceOffset s (sample_x s i) == aread (h s) i.
Proof.
  intros Hw HN. unfold sampleSurfaceOffset.
  destruct (surfaceN s <=? 1)%Z eqn:E; [apply Z.leb_le in E; lia | clear E].
  cbv zeta.
  assert (Hn : ~ inject_Z (surfaceN s - 1) == 0).
  { intros H0. unfold Qeq in H0. cbn in H0. lia. }
  assert (Efx : sample_x s i / width s * inject_Z (surfaceN s - 1) == inject_Z i).
  { unfold sample_x. field. split; assumption. }
  assert (Ei0 : Qfloor (sample_x s i / width s * inject_Z (surfaceN s - 1)) = i).
  { rewrite Efx. apply Qfloor_Z. }
  rewrite Ei0, Efx. ring.
Qed.

(** X18 at sample 80 of a newly built field. *)
Lemma sampleSurfaceOffset_at_sample_witness :
  sampleSurfaceOffset (new_WaterSimulation 500 300) (sample_x (new_WaterSimulation 500 300) 80)
  == aread (h (new_WaterSimulation 500 300)) 80.
Proof.
  refine (sampleSurfaceOffset_at_sample (new_WaterSimulation 500 300) 80 _ _).
  - intros H. vm_compute in H. discriminate H.
  - vm_compute. discriminate.
Defined.

(** ** [resize] and the droplets *)

Lemma resize_droplets (newWidth newHeight : Q) (s : Sim) :
  droplets (resize newWidth newHeight s)
  = map (rescale_droplet (newWidth / Qmax 1 (js_or (width s) newWidth)) newWidth)
        (droplets s).
Proof.
  unfold resize. cbv zeta.
  set (s2 := if Qltb 0 _ then _ else _).
  set (s3 := initSurfaceField s2).
  assert (H3 : droplets s3 = droplets s /\ width s3 = newWidth).
  { subst s3 s2. destruct_ifs; split; reflexivity. }
  set (c := (_ && _)%bool).
  set (s4 := if c then _ else s3).
  assert (H4 : droplets s4 = droplets s /\ width s4 = newWidth).
  { subst s4. destruct c; [| exact H3].
    apply (for_upto_ind (fun s' => droplets s' = droplets s /\ width s' = newWidth));
      [| exact H3].
    intros i s' H'. exact H'. }
  cbn [droplets set_droplets set_streamX]. destruct H4 as [-> ->]. reflexivity.
Qed.

(** X19: [resize] keeps every droplet, with its y-position, velocity,
    radius and volume, and puts its x-position at or right of its radius
    and, when the new width holds the droplet ([2 r <= width]), at or
    left of [width - r].  From a reachable state and for a new width of
    at least 11 every droplet is inside [0, width] afterwards. *)
Theorem resize_keeps_droplets_inside (M : Host) (newWidth newHeight : Q) (s : Sim) :
  length (droplets (resize newWidth newHeight s)) = length (droplets s) /\
  map (fun d => (y d, vx d, vy d, r d, vol d)) (droplets (resize newWidth newHeight s))
  = map (fun d => (y d, vx d, vy d, r d, vol d)) (droplets s) /\
  Forall (fun d => r d <= x d /\ (r d <= newWidth - r d -> x d <= newWidth - r d))
         (droplets (resize newWidth newHeight s)) /\
  (reachable M s -> 11 <= newWidth ->
   Forall (fun d => 0 <= x d <= newWidth) (droplets (resize newWidth newHeight s))).
Proof.
  rewrite resize_droplets.
  set (sx := newWidth / Qmax 1 (js_or (width s) newWidth)).
  split; [apply length_map |]. split.
  { induction (droplets s) as [| d ds IH]; [reflexivity |].
    cbn [map]. rewrite IH. reflexivity. }
  split.
  - apply Forall_map. apply Forall_forall. intros d _.
    cbn [rescale_droplet x r]. split; [apply Qmax_lub_l |].
    intros Hfit. apply Q.max_lub; [exact Hfit | apply Qmin_glb_l].
  - intros Hreach Hwide. pose proof (reachable_vols_ok M s Hreach) as Hok.
    unfold vols_ok in Hok. apply Forall_map.
    eapply Forall_impl; [exact Hok |]. intros d [_ [Hr1 Hr2]].
    cbn [rescale_droplet x r].
    pose proof (Qmax_lub_l (r d) (Qmin (newWidth - r d) (x d * sx))) as H1.
    assert (H2 : Qmax (r d) (Qmin (newWidth - r d) (x d * sx)) <= newWidth - r d).
    { apply Q.max_lub; [lra | apply Qmin_glb_l]. }
    lra.
Qed.

(** X19 for the droplets of the first frame of [running], after a
    resize to 800 x 600. *)
Lemma resize_keeps_droplets_inside_witness :
  Forall (fun d => 0 <= x d <= 800)
         (droplets (resize 800 600 (fst (update demoHost 0 0.016 (running, 0%nat))))).
Proof.
  refine (proj2 (proj2 (proj2 (resize_keeps_droplets_inside demoHost 800 600
            (fst (update demoHost 0 0.016 (running, 0%nat)))))) _ _).
  - exact running_frame_reachable.
  - vm_compute. discriminate.
Defined.

(** ** A flat surface at rest *)



(** ** The droplets that stay in flight *)

Lemma step_droplet_kept (dt : Q) (d : Droplet) (s : Sim) :
  height (fst (step_droplet dt d s)) = height s /\
  forall d', snd (step_droplet dt d s) = Some d' ->
    px d' = x d /\ py d' = y d /\
    vy d' = (vy d + gravity * dt) * airDrag /\
    y d' = y d + vy d' * dt /\
    y d' <= height s + 120.
Proof.
  unfold step_droplet.
  destruct (Qltb (x d + vx d * airDrag * dt) (r d));
    [| destruct (Qltb (width s - r d) (x d + vx d * airDrag * dt))];
    cbv zeta beta iota;
    (match goal with |- context [if Qle_bool ?a ?b then _ else _] =>
       destruct (Qle_bool a b) end;
     [split; [reflexivity | intros d' E; discriminate E] |]);
    (match goal with |- context [if Qltb ?a ?b then _ else _] =>
       destruct (Qltb a b) eqn:E3 end;
     [split; [reflexivity | intros d' E; discriminate E] |]);
    (split; [reflexivity |]); intros d' E; cbn [snd] in E;
    injection E as <-; cbn [px py vy y];
    apply Qltb_false in E3; repeat split; exact E3.
Qed.

Lemma droplet_loop_kept_motion (dt H : Q) (ds : list Droplet) (s : Sim) :
  height s = H ->
  height (fst (droplet_loop dt ds s)) = H /\
  Forall (fun d' => y d' = py d' + vy d' * dt /\ y d' <= H + 120)
         (snd (droplet_loop dt ds s)).
Proof.
  intros Hh. induction ds as [| d rest IH]; simpl.
  - split; [exact Hh | constructor].
  - destruct (droplet_loop dt rest s) as [s1 rest']. cbn [fst snd] in IH.
    destruct IH as [IHh IHf].
    destruct (step_droplet_kept dt d s1) as [Eh Ed].
    destruct (step_droplet dt d s1) as [s2 [d' |]]; cbn [fst snd] in *.
    + split; [congruence |]. constructor; [| exact IHf].
      destruct (Ed d' eq_refl) as (_ & Epy & _ & Ey & Hy).
      split; [congruence |]. rewrite <- IHh. exact Hy.
    + split; [congruence | exact IHf].
Qed.

(** X21: every droplet that is active after [update(deltaTime)] was
    moved by that call: its [y] is its recorded previous position [py]
    plus its (new) vertical velocity times the clamped step, and it is
    not more than 120 below the bottom edge of the scene. *)
Theorem active_droplets_moved_one_step (M : Host) (now deltaTime : Q) (s : Sim) (k : nat) :
  Forall (fun d' => y d' = py d' + vy d' * clamp_dt deltaTime /\
                    y d' <= height s + 120)
         (droplets (fst (update M now deltaTime (s, k)))).
Proof.
  rewrite update_droplets_final.
  set (s3 := update_drain (clamp_dt deltaTime)
               (fst (update_emit M (clamp_dt deltaTime) (update_stream M now s, k)))).
  assert (Hh : height s3 = height s).
  { assert (Hs : same_static s s3).
    { subst s3. unfold update_drain.
      assert (He : same_static s
                     (fst (update_emit M (clamp_dt deltaTime) (update_stream M now s, k)))).
      { apply static_update_emit. cbn [fst]. unfold update_stream, same_static.
        cbn. repeat split. }
      destruct_ifs; exact He. }
    exact (proj1 (proj2 Hs)). }
  unfold update_droplets.
  pose proof (droplet_loop_kept_motion (clamp_dt deltaTime) (height s) (droplets s3) s3 Hh)
    as [_ Hf].
  destruct (droplet_loop (clamp_dt deltaTime) (droplets s3) s3) as [s' kept].
  exact Hf.
Qed.

(** ** The frame loop of the controller *)

Lemma animation_idle (M : Host) (frames drain : list (Q * Q)) (t : TimerController.Timer) :
  TimerController.isRunning t = false -> TimerController.animation M frames drain t = t.
Proof. intros H. destruct frames as [| [c n] rest]; cbn; [| rewrite H]; reflexivity. Qed.

Lemma Qceiling_pos (a : Q) : 0 < a -> (1 <= Qceiling a)%Z.
Proof.
  intros Ha. pose proof (Qle_ceiling a) as H.
  assert (H0 : inject_Z 0 < inject_Z (Qceiling a)) by (change (inject_Z 0) with 0; lra).
  rewrite <- Zlt_Qlt in H0. lia.
Qed.

(** What one frame does to a running timer. *)
Lemma animate_running (M : Host) (c n : Q) (drain : list (Q * Q)) (t : TimerController.Timer) :
  TimerController.isRunning t = true ->
  let t' := TimerController.animate M c n drain t in
  let left := TimerController.remainingSeconds t - (c - TimerController.lastTime t) / 1000 in
  (TimerController.isPaused t = true /\ t' = TimerController.set_lastTime c t) \/
  (TimerController.isPaused t = false /\ left <= 0 /\
   TimerController.isRunning t' = false /\ TimerController.remainingSeconds t' = 0 /\
   TimerController.timeText t' = "00:00:00" /\ TimerController.isPaused t' = false /\
   TimerController.waterSim t' = complete M drain (TimerController.waterSim t)) \/
  (TimerController.isPaused t = false /\ 0 < left /\
   TimerController.isRunning t' = true /\ TimerController.isPaused t' = false /\
   TimerController.remainingSeconds t' = left /\ TimerController.lastTime t' = c /\
   TimerController.timeText t' = formatTime (Qceiling left) /\
   TimerController.waterSim t'
   = update M n ((c - TimerController.lastTime t) / 1000) (TimerController.waterSim t)).
Proof.
  intros Hrun. unfold TimerController.animate. rewrite Hrun. cbn [negb].
  cbn [TimerController.isPaused TimerController.set_lastTime].
  destruct (TimerController.isPaused t) eqn:Hp; cbn [negb]; cbv zeta.
  { left. split; reflexivity. }
  right.
  cbn [TimerController.remainingSeconds TimerController.set_remainingSeconds
       TimerController.set_lastTime].
  destruct (Qle_bool (TimerController.remainingSeconds t
                      - (c - TimerController.lastTime t) / 1000) 0) eqn:E.
  - left. apply Qle_bool_iff in E. split; [reflexivity |]. split; [exact E |].
    cbn. rewrite Hp. repeat split.
  - right. apply Qle_bool_false in E. split; [reflexivity |]. split; [exact E |].
    cbn. rewrite Hrun, Hp. repeat split.
Qed.

Lemma animation_paused_running (M : Host) (frames drain : list (Q * Q)) :
  forall t : TimerController.Timer,
    TimerController.isPaused t = true ->
    TimerController.isRunning (TimerController.animation M frames drain t)
    = TimerController.isRunning t.
Proof.
  induction frames as [| [c n] rest IH]; intros t Hp; [reflexivity |].
  cbn [TimerController.animation].
  destruct (TimerController.isRunning t) eqn:Hr; [| exact Hr].
  destruct (animate_running M c n drain t Hr) as [[_ E] | [(Hp' & _) | (Hp' & _)]];
    [| congruence | congruence].
  rewrite E. rewrite (IH (TimerController.set_lastTime c t) Hp). exact Hr.
Qed.

(** X22: while the timer is running and not paused, over any number of
    frames that leave it running: it stays unpaused; the simulation has
    received one [update] per frame, with the clock difference to the
    previous frame, divided by 1000, as its time step; if the clock
    readings do not go back, the time left has not gone up; and after at
    least one frame the time left is positive, the last reading is the
    last frame's, and the text shown is [formatTime] of the ceiling of the
    time left, which is at least one second. *)
Theorem countdown_while_running (M : Host) (frames drain : list (Q * Q))
    (t : TimerController.Timer) :
  TimerController.isRunning (TimerController.animation M frames drain t) = true ->
  TimerController.isPaused t = false ->
  let t' := TimerController.animation M frames drain t in
  TimerController.isPaused t' = false /\
  TimerController.waterSim t'
    = run M (deltas (TimerController.lastTime t) frames) (TimerController.waterSim t) /\
  (clock_ordered (TimerController.lastTime t) frames ->
   TimerController.remainingSeconds t' <= TimerController.remainingSeconds t) /\
  (frames <> [] ->
   0 < TimerController.remainingSeconds t' /\
   TimerController.lastTime t' = fst (List.last frames (0, 0)) /\
   TimerController.timeText t'
     = formatTime (Qceiling (TimerController.remainingSeconds t')) /\
   (1 <= Qceiling (TimerController.remainingSeconds t'))%Z).
Proof.
  cbv zeta. revert t. induction frames as [| [c n] rest IH]; intros t Hrun Hp.
  - cbn [TimerController.animation deltas run]. split; [exact Hp |].
    split; [reflexivity |]. split; [intros _; lra | intros H; now destruct H].
  - cbn [TimerController.animation] in *.
    destruct (TimerController.isRunning t) eqn:Hr; [| congruence].
    destruct (animate_running M c n drain t Hr)
      as [[Hp' _] | [(_ & _ & Hstop & _)
                    | (_ & Hleft & Hr1 & Hp1 & Erem & Elast & Etext & Esim)]].
    + congruence.
    + rewrite (animation_idle M rest drain _ Hstop) in Hrun. congruence.
    + set (t1 := TimerController.animate M c n drain t) in *.
      destruct (IH t1 Hrun Hp1) as (IHp & IHsim & IHrem & IHlast).
      split; [exact IHp |]. split; [| split].
      * rewrite IHsim, Esim, Elast. reflexivity.
      * cbn [clock_ordered]. intros [Hc Hord]. rewrite Elast in IHrem.
        specialize (IHrem Hord).
        assert (Hd : 0 <= (c - TimerController.lastTime t) / 1000).
        { apply Qle_shift_div_l; lra. }
        eapply Qle_trans; [exact IHrem |]. rewrite Erem. lra.
      * intros _. destruct rest as [| f rest'].
        { cbn [TimerController.animation List.last fst]. rewrite Erem.
          split; [exact Hleft |]. split; [exact Elast |]. split; [exact Etext |].
          now apply Qceiling_pos. }
        { assert (Hne : f :: rest' <> []) by discriminate.
          destruct (IHlast Hne) as (H1 & H2 & H3 & H4).
          split; [exact H1 |]. split; [| split; [exact H3 | exact H4]].
          rewrite H2. reflexivity. }
Qed.

(** X22 for two frames, 16 and 33 milliseconds after the start of a
    five-minute timer. *)
Lemma countdown_while_running_witness :
  TimerController.waterSim
    (TimerController.animation demoHost [(16, 16); (33, 33)] [] ticking)
  = run demoHost (deltas (TimerController.lastTime ticking) [(16, 16); (33, 33)])
      (TimerController.waterSim ticking) /\
  TimerController.remainingSeconds
    (TimerController.animation demoHost [(16, 16); (33, 33)] [] ticking)
  <= TimerController.remainingSeconds ticking.
Proof.
  refine ((fun H => conj (proj1 (proj2 H)) (proj1 (proj2 (proj2 H)) _))
            (countdown_while_running demoHost [(16, 16); (33, 33)] [] ticking _ _)).
  - vm_compute. repeat split; discriminate.
  - reflexivity.
  - reflexivity.
Defined.

(** X23: time spent paused is not counted.  Over any number of frames
    of a paused timer the time left, the text shown, the simulation and
    the two flags stay as they are; a running timer moves its last clock
    reading to the last frame's, so the first frame after [pause()]
    resumes deducts only the time since that reading. *)
Theorem paused_time_not_counted (M : Host) (frames drain : list (Q * Q))
    (t : TimerController.Timer) :
  TimerController.isPaused t = true ->
  let t' := TimerController.animation M frames drain t in
  TimerController.remainingSeconds t' = TimerController.remainingSeconds t /\
  TimerController.waterSim t' = TimerController.waterSim t /\
  TimerController.timeText t' = TimerController.timeText t /\
  TimerController.isRunning t' = TimerController.isRunning t /\
  TimerController.isPaused t' = true /\
  (TimerController.isRunning t = true -> frames <> [] ->
   TimerController.lastTime t' = fst (List.last frames (0, 0)) /\
   forall c n,
     TimerController.remainingSeconds
       (TimerController.animate M c n drain (TimerController.pause t'))
     == Qmax 0 (TimerController.remainingSeconds t
                - (c - fst (List.last frames (0, 0))) / 1000)).
Proof.
  cbv zeta. revert t. induction frames as [| [c n] rest IH]; intros t Hp.
  - cbn [TimerController.animation]. do 4 (split; [reflexivity |]).
    split; [exact Hp |]. intros _ Hne. now destruct Hne.
  - cbn [TimerController.animation].
    destruct (TimerController.isRunning t) eqn:Hr.
    2:{ do 3 (split; [reflexivity |]). split; [exact Hr |]. split; [exact Hp |].
        intros Hf. discriminate Hf. }
    destruct (animate_running M c n drain t Hr) as [[_ E] | [(Hp' & _) | (Hp' & _)]];
      [| congruence | congruence].
    rewrite E.
    destruct (IH (TimerController.set_lastTime c t) Hp) as (H1 & H2 & H3 & H4 & H5 & H6).
    cbn [TimerController.set_lastTime TimerController.remainingSeconds
         TimerController.waterSim TimerController.timeText TimerController.isRunning] in *.
    split; [exact H1 |]. split; [exact H2 |]. split; [exact H3 |].
    split; [congruence |]. split; [exact H5 |]. intros _ _.
    destruct rest as [| f rest'].
    + cbn [TimerController.animation List.last fst TimerController.lastTime
           TimerController.set_lastTime].
      split; [reflexivity |]. intros c' n'.
      set (tp := TimerController.pause (TimerController.set_lastTime c t)).
      assert (Hrp : TimerController.isRunning tp = true) by exact Hr.
      destruct (animate_running M c' n' drain tp Hrp)
        as [[Hq _] | [(_ & Hle & _ & E0 & _) | (_ & Hlt & _ & _ & E1 & _)]].
      * subst tp. cbn in Hq. rewrite Hp in Hq. discriminate Hq.
      * rewrite E0. subst tp. cbn in Hle.
        destruct (Qmax_cases 0 (TimerController.remainingSeconds t - (c' - c) / 1000))
          as [[Em _] | [Em Hm]]; rewrite Em; lra.
      * rewrite E1. subst tp. cbn in Hlt |- *.
        destruct (Qmax_cases 0 (TimerController.remainingSeconds t - (c' - c) / 1000))
          as [[Em Hm] | [Em _]]; rewrite Em; lra.
    + assert (Hne : f :: rest' <> []) by discriminate.
      destruct (H6 Hr Hne) as [H7 H8]. split; [exact H7 |]. exact H8.
Qed.

(** X23 for a timer paused right after its start, over two frames. *)
Lemma paused_time_not_counted_witness :
  TimerController.remainingSeconds
    (TimerController.animation demoHost [(16, 16); (33, 33)] []
       (TimerController.pause ticking))
  = TimerController.remainingSeconds (TimerController.pause ticking).
Proof.
  refine (proj1 (paused_time_not_counted demoHost [(16, 16); (33, 33)] []
                   (TimerController.pause ticking) _)).
  reflexivity.
Defined.

(** X24: the time left never becomes negative, and the frame loop of a
    running timer stops by itself only through [complete()]: the timer
    was not paused, it then shows 00:00:00 with no time left, and there is
    a frame at which the time left, less the clock difference, was no
    longer positive; its simulation is the timer's own, after one
    [update] for each frame before that one, then [startDraining()] and
    the drain loop. *)
Theorem animation_stops_by_completion (M : Host) (frames drain : list (Q * Q))
    (t : TimerController.Timer) :
  let t' := TimerController.animation M frames drain t in
  (0 <= TimerController.remainingSeconds t -> 0 <= TimerController.remainingSeconds t') /\
  (TimerController.isRunning t = true -> TimerController.isRunning t' = false ->
   TimerController.isPaused t = false /\
   TimerController.remainingSeconds t' = 0 /\
   TimerController.timeText t' = "00:00:00" /\
   exists pre c n post,
     frames = pre ++ (c, n) :: post /\
     TimerController.isRunning (TimerController.animation M pre drain t) = true /\
     TimerController.remainingSeconds (TimerController.animation M pre drain t)
       - (c - TimerController.lastTime (TimerController.animation M pre drain t)) / 1000
       <= 0 /\
     TimerController.waterSim t'
     = complete M drain
         (run M (deltas (TimerController.lastTime t) pre) (TimerController.waterSim t))).
Proof.
  cbv zeta. revert t. induction frames as [| [c n] rest IH]; intros t.
  - cbn. split; [tauto | congruence].
  - cbn [TimerController.animation].
    destruct (TimerController.isRunning t) eqn:Hr; [| split; [tauto | congruence]].
    destruct (IH (TimerController.animate M c n drain t)) as [IH1 IH2].
    destruct (animate_running M c n drain t Hr)
      as [[Hp E] | [(Hp & Hle & Hstop & E0 & Etext & _ & Ew)
                   | (Hp & Hlt & Hr1 & _ & E1 & Elast & _ & Esim)]].
    + split.
      * intros H0. apply IH1. rewrite E. exact H0.
      * intros _ Hs.
        rewrite E in Hs.
        rewrite (animation_paused_running M rest drain
                   (TimerController.set_lastTime c t) Hp) in Hs.
        cbn in Hs. congruence.
    + rewrite (animation_idle M rest drain _ Hstop).
      split; [intros _; rewrite E0; lra |].
      intros _ _. split; [exact Hp |]. split; [exact E0 |]. split; [exact Etext |].
      exists [], c, n, rest. cbn [app TimerController.animation deltas run].
      split; [reflexivity |]. split; [exact Hr |]. split; [exact Hle | exact Ew].
    + split.
      * intros _. apply IH1. rewrite E1. lra.
      * intros _ Hs. destruct (IH2 Hr1 Hs) as (_ & H2 & H3 & pre & c' & n' & post & H4).
        destruct H4 as (Efr & Hrp & Hlep & Ewp).
        split; [exact Hp |]. split; [exact H2 |]. split; [exact H3 |].
        exists ((c, n) :: pre), c', n', post.
        cbn [app TimerController.animation deltas run]. rewrite Hr.
        split; [now rewrite Efr |]. split; [exact Hrp |]. split; [exact Hlep |].
        rewrite Ewp, Elast, Esim. reflexivity.
Qed.

(** X24 for a five-minute timer whose second frame comes 301 seconds
    after the start. *)
Lemma animation_stops_by_completion_witness :
  TimerController.timeText
    (TimerController.animation demoHost [(16, 16); (301000, 301000)] [] ticking)
  = "00:00:00".
Proof.
  refine (proj1 (proj2 (proj2 (proj2 (animation_stops_by_completion demoHost
                                 [(16, 16); (301000, 301000)] [] ticking) _ _)))).
  - reflexivity.
  - reflexivity.
Defined.
